(** * 3D bin packing: skyline layer packer, layer planner, orientations

    A shallow embedding of the TypeScript sources
    - [packing.ts]  (mergeNodes, skylineFindPlacement, skylineUpdate,
                     findBestBoxForGap, packLayerSkyline,
                     packPalletWithLayers),
    - [layers.ts]   (findBestBox, buildLayerCandidates),
    - [utils.ts]    (getPalletOrientations),
    - [main.ts]     (the loop over the pallet orientations),
    and the properties of them that the specification states.

    Numbers.  A JavaScript [number] is modelled as an integer ([Z]); the
    two values the code can create besides integers when it is fed
    integers, [-Infinity] (the seed of a [Math.max] fold) and [+Infinity]
    (a finite number minus [-Infinity]), are kept in the type [num] for
    the quantities they can reach: depths [z], gap depths and scores.
    The composite score of [findBestBoxForGap], the one place where the
    layer packer multiplies its inputs, is computed as the code computes
    it: every operation gives the double nearest to the exact result
    (ties to even), so that beyond [2^53] a score is a rounded value, see
    [JsNum.rnd].
    A quotient (the utilization) is a rational or one of the IEEE special
    values, see [quot]. *)

From Stdlib Require Import String Ascii.
From Stdlib Require DecimalString DecimalZ DecimalPos.
From Stdlib Require Import QArith.
From Stdlib Require Import ZArith List Lia Bool Permutation Sorted.
Import ListNotations.
Open Scope Z_scope.

(* ================================================================== *)
(** ** Numbers with the two infinities *)

Module JsNum.

Inductive num : Type :=
| NegInf
| Fin (v : Z)
| PosInf.

(** [a === b] *)
Definition eqb (a b : num) : bool :=
  match a, b with
  | NegInf, NegInf => true
  | Fin u, Fin v => u =? v
  | PosInf, PosInf => true
  | _, _ => false
  end.

(** [a < b] *)
Definition ltb (a b : num) : bool :=
  match a, b with
  | NegInf, NegInf => false
  | NegInf, _ => true
  | Fin _, NegInf => false
  | Fin u, Fin v => u <? v
  | Fin _, PosInf => true
  | PosInf, _ => false
  end.

(** [a <= b] *)
Definition leb (a b : num) : bool := ltb a b || eqb a b.

(** [a > b] *)
Definition gtb (a b : num) : bool := ltb b a.

(** [Math.max(a, b)] *)
Definition max (a b : num) : num := if ltb a b then b else a.

(** [a + v] for a finite [v] *)
Definition addz (a : num) (v : Z) : num :=
  match a with
  | NegInf => NegInf
  | Fin u => Fin (u + v)
  | PosInf => PosInf
  end.

(** [v - a] for a finite [v] *)
Definition zsub (v : Z) (a : num) : num :=
  match a with
  | NegInf => PosInf
  | Fin u => Fin (v - u)
  | PosInf => NegInf
  end.

(** [Math.abs(a)] *)
Definition abs (a : num) : num :=
  match a with
  | NegInf => PosInf
  | Fin u => Fin (Z.abs u)
  | PosInf => PosInf
  end.

(** The double nearest to the integer [v]: [v] itself up to [2^53];
    beyond, [v] with its 53 leading bits kept and the rest rounded to
    nearest, ties to the even mantissa; an infinity from [2^1024] on. *)
Definition rnd (v : Z) : num :=
  let a := Z.abs v in
  if a <=? 9007199254740992 then Fin v
  else
    let e := Z.log2 a - 52 in
    let q := Z.shiftr a e in
    let r := a - Z.shiftl q e in
    let half := Z.shiftl 1 (e - 1) in
    let q' := if (half <? r) || ((r =? half) && Z.odd q) then q + 1 else q in
    let m := Z.shiftl q' e in
    if Z.shiftl 1 1024 <=? m then (if v <? 0 then NegInf else PosInf)
    else Fin (if v <? 0 then - m else m).

(** [a + b] as the code computes it, for operands that are not
    infinities of opposite signs (the sums of this file add magnitudes). *)
Definition radd (a b : num) : num :=
  match a, b with
  | Fin u, Fin v => rnd (u + v)
  | PosInf, _ | _, PosInf => PosInf
  | NegInf, _ | _, NegInf => NegInf
  end.

(** [a * k] as the code computes it, for a constant [k > 0]. *)
Definition rmul (a : num) (k : Z) : num :=
  match a with
  | NegInf => NegInf
  | Fin u => rnd (u * k)
  | PosInf => PosInf
  end.

(** [v - a] as the code computes it, for a finite [v]. *)
Definition rsub (v : Z) (a : num) : num :=
  match a with
  | NegInf => PosInf
  | Fin u => rnd (v - u)
  | PosInf => NegInf
  end.

End JsNum.
Import JsNum.

(* ================================================================== *)
(** ** Data model ([type.ts]) *)

Record Box : Type := mkBox {
  box_id : string;
  box_w : Z;
  box_h : Z;
  box_d : Z;
  box_qty : Z
}.

Record Pallet : Type := mkPallet {
  pal_w : Z;
  pal_h : Z;
  pal_d : Z
}.

(** [PlacedBox extends Box]: the fields of [Box] and the anchor. *)
Record PlacedBox : Type := mkPlaced {
  pb_id : string;
  pb_w : Z;
  pb_h : Z;
  pb_d : Z;
  pb_qty : Z;
  pb_x : Z;
  pb_y : Z;
  pb_z : num;
  pb_orientation : Z * Z * Z
}.

Record LayerCandidate : Type := mkLayer {
  lc_height : Z;
  lc_evalScore : Z
}.

(** Skyline node [{x, z}]: from [x] on, the filled depth is [z]. *)
Record Node : Type := mkNode {
  node_x : Z;
  node_z : num
}.

(** Outcome of a piece of code: a value, a thrown [TypeError] (a field
    read off [undefined]), or the loop budget of the model used up. *)
Inductive res (A : Type) : Type :=
| Ok (a : A)
| TypeError
| OutOfFuel.
Arguments Ok {A} a.
Arguments TypeError {A}.
Arguments OutOfFuel {A}.

(** Last element of an array, [arr[arr.length - 1]] ([None]: undefined). *)
Fixpoint lastOpt {A : Type} (l : list A) : option A :=
  match l with
  | [] => None
  | [a] => Some a
  | _ :: l' => lastOpt l'
  end.

(* ================================================================== *)
(** ** The skyline profile ([packing.ts]) *)

Module Skyline.

(** One iteration of the loop of [mergeNodes].  [acc] is [out] reversed,
    so that its head is [out[out.length - 1]]. *)
Definition mergePush (acc : list Node) (n : Node) : list Node :=
  match acc with
  | [] => [n]
  | last :: acc' =>
      if JsNum.eqb (node_z last) (node_z n)
      then mkNode (node_x n) (node_z last) :: acc'   (* last.x = n.x *)
      else n :: acc
  end.

Definition mergeNodes (nodes : list Node) : list Node :=
  rev (fold_left mergePush nodes []).

(** First loop of [skylineUpdate]: the nodes left of [x] are copied to
    [out]; the second component is [nodes] from index [i] on. *)
Fixpoint takeLeft (x : Z) (nodes : list Node) : list Node * list Node :=
  match nodes with
  | [] => ([], [])
  | n :: rest =>
      if node_x n <? x
      then let '(out, r) := takeLeft x rest in (n :: out, r)
      else ([], nodes)
  end.

(** Second loop: [while (i < nodes.length && nodes[i].x <= rightX) i++]. *)
Fixpoint skipInside (rightX : Z) (rest : list Node) : list Node :=
  match rest with
  | [] => []
  | n :: r => if node_x n <=? rightX then skipInside rightX r else rest
  end.

(** [zAfter]: the z of the last node with [x <= rightX], 0 if none. *)
Definition zAfterOf (rightX : Z) (nodes : list Node) : num :=
  match find (fun n => node_x n <=? rightX) (rev nodes) with
  | Some n => node_z n
  | None => Fin 0
  end.

(** The node pushed or overwritten at [x]. *)
Definition putLeft (out : list Node) (x : Z) (newTop : num) : list Node :=
  match lastOpt out with
  | None => out ++ [mkNode x newTop]
  | Some l =>
      if negb (node_x l =? x)
      then out ++ [mkNode x newTop]
      else removelast out ++ [mkNode (node_x l) newTop]
  end.

Definition skylineUpdate (nodes : list Node) (x bw : Z) (newTop : num)
  : res (list Node) :=
  let rightX := x + bw in
  let '(out0, rest0) := takeLeft x nodes in
  let out1 := putLeft out0 x newTop in
  let rest := skipInside rightX rest0 in
  let zAfter := zAfterOf rightX nodes in
  match lastOpt nodes with
  | None => TypeError
  | Some sentinel =>
      if rightX <? node_x sentinel
      then
        let out2 :=
          if negb (JsNum.eqb zAfter newTop)
          then out1 ++ [mkNode rightX zAfter] else out1 in
        Ok (mergeNodes (out2 ++ rest))
      else
        Ok (mergeNodes (out1 ++ [mkNode (node_x sentinel) (node_z sentinel)]))
  end.

(** The profile invariants of the specification. *)
Fixpoint xsIncreasing (nodes : list Node) : bool :=
  match nodes with
  | a :: (b :: _) as tl => (node_x a <? node_x b) && xsIncreasing tl
  | _ => true
  end.

Fixpoint noEqualNeighbours (nodes : list Node) : bool :=
  match nodes with
  | a :: (b :: _) as tl =>
      negb (JsNum.eqb (node_z a) (node_z b)) && noEqualNeighbours tl
  | _ => true
  end.

Definition startsAtZero (nodes : list Node) : bool :=
  match nodes with
  | a :: _ => node_x a =? 0
  | [] => false
  end.

Definition endsAtSentinel (W : Z) (nodes : list Node) : bool :=
  match lastOpt nodes with
  | Some s => node_x s =? W
  | None => false
  end.

Definition skylineInv (W : Z) (nodes : list Node) : bool :=
  xsIncreasing nodes && noEqualNeighbours nodes
  && startsAtZero nodes && endsAtSentinel W nodes.

End Skyline.
Import Skyline.

(* ================================================================== *)
(** ** The layer packer and the pallet packer ([packing.ts]) *)

Module Packing.

Record Cand : Type := mkCand {
  cand_index : nat;
  cand_orientation : Z * Z * Z;
  cand_score : num
}.

(** The six orientations [bw, bh, bd] tried for a box, in source order. *)
Definition orients (b : Box) : list (Z * Z * Z) :=
  [ (box_w b, box_h b, box_d b);
    (box_w b, box_d b, box_h b);
    (box_h b, box_w b, box_d b);
    (box_h b, box_d b, box_w b);
    (box_d b, box_w b, box_h b);
    (box_d b, box_h b, box_w b) ].

(** [fitsLayer ? Math.abs(layerHeight - bh)
              : 100000 + Math.abs(bh - layerHeight)] *)
Definition primaryPenalty (layerHeight maxAvailableY bh : Z) : num :=
  if bh <=? maxAvailableY
  then JsNum.abs (JsNum.rnd (layerHeight - bh))
  else JsNum.radd (Fin 100000) (JsNum.abs (JsNum.rnd (bh - layerHeight))).

(** [primaryPenalty * 10000 + Math.abs(bw - gapWidth) * 100
     + Math.abs(bd - gapDepth)], each operation rounded as the code
    rounds it. *)
Definition scoreOf (gapWidth : Z) (gapDepth : num)
  (layerHeight maxAvailableY : Z) (o : Z * Z * Z) : num :=
  let '(bw, bh, bd) := o in
  JsNum.radd
    (JsNum.radd
       (JsNum.rmul (primaryPenalty layerHeight maxAvailableY bh) 10000)
       (JsNum.rmul (JsNum.abs (JsNum.rnd (bw - gapWidth))) 100))
    (JsNum.abs (JsNum.rsub bd gapDepth)).

(** Body of the inner loop [for (const o of orients)]. *)
Definition considerOrient (gapWidth : Z) (gapDepth : num)
  (layerHeight maxAvailableY : Z) (i : nat)
  (best : option Cand) (o : Z * Z * Z) : option Cand :=
  let '(bw, bh, bd) := o in
  if bw >? gapWidth then best
  else if JsNum.gtb (Fin bd) gapDepth then best
  else
    let score := scoreOf gapWidth gapDepth layerHeight maxAvailableY o in
    match best with
    | None => Some (mkCand i o score)
    | Some b =>
        if JsNum.ltb score (cand_score b) then Some (mkCand i o score)
        else best
    end.

(** Body of the outer loop [for (let i = 0; i < boxes.length; i++)]. *)
Definition considerBox (gapWidth : Z) (gapDepth : num)
  (layerHeight maxAvailableY : Z)
  (best : option Cand) (ib : nat * Box) : option Cand :=
  let '(i, box) := ib in
  if box_qty box <=? 0 then best
  else fold_left
         (considerOrient gapWidth gapDepth layerHeight maxAvailableY i)
         (orients box) best.

Definition indexed {A : Type} (l : list A) : list (nat * A) :=
  combine (seq 0 (length l)) l.

Definition findBestBoxForGap (boxes : list Box) (gapWidth : Z)
  (gapDepth : num) (layerHeight maxAvailableY : Z) : option Cand :=
  fold_left (considerBox gapWidth gapDepth layerHeight maxAvailableY)
            (indexed boxes) None.

(** [Math.max] folded over the z of some nodes, seeded with [-Infinity]. *)
Definition maxZ (l : list Node) : num :=
  fold_left (fun m n => JsNum.max m (node_z n)) l NegInf.

(** The loop
    [while (j < nodes.length - 1 && span < bw)
       { span = nodes[j+1].x - gapX; j++ }].
    [rest] is [nodes] from index [j+1] on; the result is the final
    [span] and the number of iterations [j - i]. *)
Fixpoint spanLoop (gapX bw : Z) (rest : list Node) (span : Z) (steps : nat)
  : Z * nat :=
  match rest with
  | [] => (span, steps)
  | n :: rest' =>
      if span <? bw
      then spanLoop gapX bw rest' (node_x n - gapX) (S steps)
      else (span, steps)
  end.

(** What one gap contributes: [None] for [continue], or the new
    skyline, the placement and the index of the box used. *)
Definition Placement : Type := list Node * PlacedBox * nat.

(** Body of [for (let i = 0; i < nodes.length - 1; i++)]. *)
Definition tryGap (boxes : list Box) (pallet : Pallet)
  (layerHeight yBase : Z) (nodes : list Node) (i : nat)
  : res (option Placement) :=
  match skipn i nodes with
  | ni :: ni1 :: rest =>
      let gapX := node_x ni in
      let gapWidthTotal := node_x ni1 - gapX in
      if gapWidthTotal <=? 0 then Ok None
      else
        (* k from i to nodes.length - 2 *)
        let maxZInSpan := maxZ (removelast (ni :: ni1 :: rest)) in
        let gapDepthAvailable := JsNum.zsub (pal_d pallet) maxZInSpan in
        if JsNum.leb gapDepthAvailable (Fin 0) then Ok None
        else
          match findBestBoxForGap boxes gapWidthTotal gapDepthAvailable
                  layerHeight layerHeight with
          | None => Ok None
          | Some cand =>
              match nth_error boxes (cand_index cand) with
              | None => TypeError
              | Some box =>
                  let '(bw, bh, bd) := cand_orientation cand in
                  let '(span, steps) := spanLoop gapX bw (ni1 :: rest) 0 0 in
                  if span <? bw then Ok None
                  else
                    (* k from i to j - 1 *)
                    let exactMaxZ := maxZ (firstn steps (ni :: ni1 :: rest)) in
                    if JsNum.gtb (JsNum.addz exactMaxZ bd) (Fin (pal_d pallet))
                    then Ok None
                    else
                      match skylineUpdate nodes gapX bw
                              (JsNum.addz exactMaxZ bd) with
                      | Ok nodes' =>
                          Ok (Some (nodes',
                                    mkPlaced (box_id box) bw bh bd 1
                                             gapX yBase exactMaxZ (bw, bh, bd),
                                    cand_index cand))
                      | TypeError => TypeError
                      | OutOfFuel => OutOfFuel
                      end
              end
          end
  | _ => Ok None
  end.

(** The [for] loop over the gaps: the first gap that places a box ends
    it ([break]); [n] gaps are left to visit from index [i] on. *)
Fixpoint scanFrom (try : nat -> res (option Placement)) (i n : nat)
  : res (option Placement) :=
  match n with
  | O => Ok None
  | S n' =>
      match try i with
      | Ok None => scanFrom try (S i) n'
      | r => r
      end
  end.

Definition scanGaps (boxes : list Box) (pallet : Pallet)
  (layerHeight yBase : Z) (nodes : list Node) : res (option Placement) :=
  scanFrom (tryGap boxes pallet layerHeight yBase nodes) 0
           (length nodes - 1).

(** [boxes[idx].qty -= 1] *)
Fixpoint decQty (idx : nat) (boxes : list Box) : list Box :=
  match boxes, idx with
  | [], _ => []
  | b :: bs, O =>
      mkBox (box_id b) (box_w b) (box_h b) (box_d b) (box_qty b - 1) :: bs
  | b :: bs, S k => b :: decQty k bs
  end.

(** The [while (true)] loop of [packLayerSkyline]. *)
Fixpoint packLoop (fuel : nat) (pallet : Pallet) (layerHeight yBase : Z)
  (boxes : list Box) (nodes : list Node) (placed : list PlacedBox)
  : res (list PlacedBox * list Box) :=
  match fuel with
  | O => OutOfFuel
  | S fuel' =>
      match scanGaps boxes pallet layerHeight yBase nodes with
      | Ok (Some (nodes', pb, idx)) =>
          packLoop fuel' pallet layerHeight yBase
                   (decQty idx boxes) nodes' (placed ++ [pb])
      | Ok None => Ok (placed, boxes)
      | TypeError => TypeError
      | OutOfFuel => OutOfFuel
      end
  end.

Definition initialNodes (pallet : Pallet) : list Node :=
  [mkNode 0 (Fin 0); mkNode (pal_w pallet) (Fin 0)].

(** Returns [{placed, boxesOut}]. *)
Definition packLayerSkyline (fuel : nat) (boxesIn : list Box)
  (pallet : Pallet) (layerHeight yBase : Z)
  : res (list PlacedBox * list Box) :=
  packLoop fuel pallet layerHeight yBase boxesIn (initialNodes pallet) [].

(** A quotient [a / b] of two integers. *)
Inductive quot : Type :=
| QNaN
| QNegInf
| QFin (q : Q)
| QPosInf.

Definition jsDiv (a b : Z) : quot :=
  if b =? 0
  then (if a =? 0 then QNaN else if 0 <? a then QPosInf else QNegInf)
  else QFin (Qdiv (inject_Z a) (inject_Z b)).

(** [a > b] on quotients; any comparison with NaN is false. *)
Definition quotGtb (a b : quot) : bool :=
  match a, b with
  | QNaN, _ | _, QNaN => false
  | QNegInf, _ => false
  | QFin _, QNegInf => true
  | QFin p, QFin q => negb (Qle_bool p q)
  | QFin _, QPosInf => false
  | QPosInf, QPosInf => false
  | QPosInf, _ => true
  end.

(** [Math.max(...placed.map(p => p.h))] for a non-empty [placed]. *)
Definition maxPlacedH (p : PlacedBox) (ps : list PlacedBox) : Z :=
  fold_left Z.max (map pb_h ps) (pb_h p).

(** State of the loop [while (currentY < pallet.h)]. *)
Record Stack : Type := mkStack {
  remainingBoxes : list Box;
  placedAll : list PlacedBox;
  currentY : Z;
  currentLayerHeight : Z
}.

(** One iteration of that loop: [Ok (inl placedAll)] when it leaves the
    loop, [Ok (inr s')] when it goes round again.  [fuel] bounds the
    inner [while (true)] of the layer packer. *)
Definition stackStep (fuel : nat) (pallet : Pallet) (s : Stack)
  : res (list PlacedBox + Stack) :=
  if negb (currentY s <? pal_h pallet) then Ok (inl (placedAll s))
  else
    let clip := pal_h pallet <? currentY s + currentLayerHeight s in
    let h := if clip then pal_h pallet - currentY s
             else currentLayerHeight s in
    if clip && (h <=? 0) then Ok (inl (placedAll s))
    else
      match packLayerSkyline fuel (remainingBoxes s) pallet h (currentY s) with
      | Ok ([], _) => Ok (inl (placedAll s))
      | Ok (p :: ps, boxesOut) =>
          let effectiveLayerUsed := Z.max h (maxPlacedH p ps) in
          Ok (inr (mkStack boxesOut (placedAll s ++ p :: ps)
                           (currentY s + effectiveLayerUsed) h))
      | TypeError => TypeError
      | OutOfFuel => OutOfFuel
      end.

Fixpoint stackLoop (n fuel : nat) (pallet : Pallet) (s : Stack)
  : res (list PlacedBox) :=
  match n with
  | O => OutOfFuel
  | S n' =>
      match stackStep fuel pallet s with
      | Ok (inl placed) => Ok placed
      | Ok (inr s') => stackLoop n' fuel pallet s'
      | TypeError => TypeError
      | OutOfFuel => OutOfFuel
      end
  end.

Definition volume (p : PlacedBox) : Z := pb_w p * pb_h p * pb_d p.

(** [placedAll.reduce((s, p) => s + p.w * p.h * p.d, 0)] *)
Definition usedVol (placed : list PlacedBox) : Z :=
  fold_left (fun s p => s + volume p) placed 0.

(** The loop [for (const candidate of layerCandidates)]. *)
Fixpoint tryCandidates (fuel : nat) (boxes : list Box) (pallet : Pallet)
  (cands : list LayerCandidate) (bestPlaced : list PlacedBox)
  (bestUtil : quot) : res (list PlacedBox * quot) :=
  match cands with
  | [] => Ok (bestPlaced, bestUtil)
  | candidate :: cands' =>
      match stackLoop fuel fuel pallet
              (mkStack boxes [] 0 (lc_height candidate)) with
      | Ok placed =>
          let totalVolume := pal_w pallet * pal_h pallet * pal_d pallet in
          let util := jsDiv (usedVol placed) totalVolume in
          if quotGtb util bestUtil
          then tryCandidates fuel boxes pallet cands' placed util
          else tryCandidates fuel boxes pallet cands' bestPlaced bestUtil
      | TypeError => TypeError
      | OutOfFuel => OutOfFuel
      end
  end.

(** Returns [{placed, utilization}]. *)
Definition packPalletWithLayers (fuel : nat) (boxes : list Box)
  (pallet : Pallet) (layerCandidates : list LayerCandidate)
  : res (list PlacedBox * quot) :=
  tryCandidates fuel boxes pallet layerCandidates [] (QFin 0%Q).

End Packing.
Import Packing.

(* ================================================================== *)
(** ** Candidate layer heights ([layers.ts]) *)

Module Layers.

(** [heights.set(k, v)] on a [Map] kept as the list of its entries in
    insertion order: an existing key keeps its place and takes the new
    value, a new key goes to the end. *)
Fixpoint mapSet (m : list (Z * Z)) (k v : Z) : list (Z * Z) :=
  match m with
  | [] => [(k, v)]
  | (k', v') :: m' =>
      if k' =? k then (k', v) :: m' else (k', v') :: mapSet m' k v
  end.

(** [Math.min(...[b.w, b.h, b.d].map(v => Math.abs(v - dim)))] *)
Definition closest (b : Box) (dim : Z) : Z :=
  Z.min (Z.min (Z.abs (box_w b - dim)) (Z.abs (box_h b - dim)))
        (Z.abs (box_d b - dim)).

(** The inner loop [for (const b of boxes) score += closest]. *)
Definition scoreFor (boxes : list Box) (dim : Z) : Z :=
  fold_left (fun score b => score + closest b dim) boxes 0.

Definition considerDim (boxes : list Box) (pallet : Pallet)
  (heights : list (Z * Z)) (dim : Z) : list (Z * Z) :=
  if dim <=? pal_h pallet
  then mapSet heights dim (scoreFor boxes dim)
  else heights.

Definition dimsOf (box : Box) : list Z := [box_w box; box_h box; box_d box].

Definition considerBoxDims (boxes : list Box) (pallet : Pallet)
  (heights : list (Z * Z)) (box : Box) : list (Z * Z) :=
  fold_left (considerDim boxes pallet) (dimsOf box) heights.

Definition heightsOf (boxes : list Box) (pallet : Pallet) : list (Z * Z) :=
  fold_left (considerBoxDims boxes pallet) boxes [].

(** The comparator [(a, b) => a.evalScore - b.evalScore]. *)
Definition compareFn (a b : LayerCandidate) : Z :=
  lc_evalScore a - lc_evalScore b.

(** [Array.prototype.sort] is a stable sort; with a comparator that is
    a total preorder its result is the one of a stable insertion sort:
    an element goes before the first element it does not compare
    greater than. *)
Fixpoint insertSorted (a : LayerCandidate) (l : list LayerCandidate)
  : list LayerCandidate :=
  match l with
  | [] => [a]
  | b :: l' =>
      if compareFn a b <=? 0 then a :: l else b :: insertSorted a l'
  end.

Definition sortCandidates (l : list LayerCandidate) : list LayerCandidate :=
  fold_right insertSorted [] l.

Definition buildLayerCandidates (boxes : list Box) (pallet : Pallet)
  : list LayerCandidate :=
  sortCandidates
    (map (fun '(height, evalScore) => mkLayer height evalScore)
         (heightsOf boxes pallet)).

End Layers.
Import Layers.

(* ================================================================== *)
(** ** Orientations of the pallet ([utils.ts]) *)

Module Utils.

(** Number to string, as a template literal prints an integer. *)
Definition numToString (v : Z) : string :=
  DecimalString.NilZero.string_of_int (Z.to_int v).

(** The key [`${a},${b},${c}`]. *)
Definition keyOf (t : Z * Z * Z) : string :=
  let '(a, b, c) := t in
  String.append (numToString a)
    (String "," (String.append (numToString b)
                   (String "," (numToString c)))).

(** The callback of [dims.filter], threading the set [seen] (kept as
    the list of its elements) and the array built so far. *)
Definition filterStep (st : list string * list (Z * Z * Z))
  (t : Z * Z * Z) : list string * list (Z * Z * Z) :=
  let '(seen, kept) := st in
  let key := keyOf t in
  if existsb (String.eqb key) seen then st
  else (key :: seen, kept ++ [t]).

Definition dimsOfPallet (pallet : Pallet) : list (Z * Z * Z) :=
  let w := pal_w pallet in
  let h := pal_h pallet in
  let d := pal_d pallet in
  [ (w, h, d); (w, d, h); (h, w, d); (h, d, w); (d, w, h); (d, h, w) ].

Definition getPalletOrientations (pallet : Pallet) : list Pallet :=
  map (fun '(W, H, D) => mkPallet W H D)
      (snd (fold_left filterStep (dimsOfPallet pallet) ([], []))).

End Utils.
Import Utils.

(* ================================================================== *)
(** ** Placement search on the skyline ([packing.ts]) *)

Module FindPlacement.




End FindPlacement.
Import FindPlacement.

(* ================================================================== *)
(** ** The second best-box helper ([layers.ts]) *)

Module BestBox.






End BestBox.
Import BestBox.

(* ================================================================== *)
(** ** The search over the pallet orientations ([main.ts]) *)

Module Main.

(** [bestSolution]: [{utilization, placed}]. *)
Definition Solution : Type := (quot * list PlacedBox)%type.

(** Body of [for (const orientation of getPalletOrientations(pallet))]. *)
Definition tryOrientation (fuel : nat) (boxes : list Box)
  (bestSolution : Solution) (orientation : Pallet) : res Solution :=
  let layers := buildLayerCandidates boxes orientation in
  match packPalletWithLayers fuel boxes orientation layers with
  | Ok (placed, utilization) =>
      if quotGtb utilization (fst bestSolution)
      then Ok (utilization, placed)
      else Ok bestSolution
  | TypeError => TypeError
  | OutOfFuel => OutOfFuel
  end.

Fixpoint tryOrientations (fuel : nat) (boxes : list Box)
  (orientations : list Pallet) (bestSolution : Solution) : res Solution :=
  match orientations with
  | [] => Ok bestSolution
  | orientation :: rest =>
      match tryOrientation fuel boxes bestSolution orientation with
      | Ok best' => tryOrientations fuel boxes rest best'
      | TypeError => TypeError
      | OutOfFuel => OutOfFuel
      end
  end.

(** The script, for a pallet and a catalog: the best solution at the
    end of the loop. *)
Definition searchOrientations (fuel : nat) (pallet : Pallet)
  (boxes : list Box) : res Solution :=
  tryOrientations fuel boxes (getPalletOrientations pallet) (QFin 0%Q, []).

(** The pallet and the catalog of the script. *)
Definition pallet : Pallet := mkPallet 84 96 104.

Definition boxes : list Box :=
  [ mkBox "A" 20 10 15 10; mkBox "B" 15 15 15 5; mkBox "C" 10 20 30 3 ].

End Main.

(* ================================================================== *)
(** ** Definitions used to state the properties *)

(** Deduplication of a list of triples keeping the first occurrence of
    each, by exact equality of the triples; [seen] are the triples
    already met. *)
Definition tripleEqb (s t : Z * Z * Z) : bool :=
  let '(a, b, c) := s in
  let '(a', b', c') := t in
  (a =? a') && (b =? b') && (c =? c').

Fixpoint dedupFrom (seen l : list (Z * Z * Z)) : list (Z * Z * Z) :=
  match l with
  | [] => []
  | t :: l' =>
      if existsb (tripleEqb t) seen then dedupFrom seen l'
      else t :: dedupFrom (t :: seen) l'
  end.

(** The canonical enumeration order of the permutations of [(a, b, c)]. *)
Definition canonicalOrder (a b c : Z) : list (Z * Z * Z) :=
  [ (a, b, c); (a, c, b); (b, a, c); (b, c, a); (c, a, b); (c, b, a) ].

Definition palletOf (t : Z * Z * Z) : Pallet :=
  let '(W, H, D) := t in mkPallet W H D.

(** How many orientations are expected: 1 when the three values
    coincide, 3 when exactly two do, 6 when all differ. *)
Definition expectedCount (a b c : Z) : nat :=
  if (a =? b) && (b =? c) then 1%nat
  else if (a =? b) || (b =? c) || (a =? c) then 3%nat
  else 6%nat.

(** No comma occurs in [s]. *)
Fixpoint commaFree (s : string) : Prop :=
  match s with
  | EmptyString => True
  | String c s' => c <> ","%char /\ commaFree s'
  end.

(** The box dimensions in the order the planner meets them. *)
Definition allDims (boxes : list Box) : list Z := flat_map dimsOf boxes.

(** The distinct values of a list, each at its first occurrence. *)
Fixpoint firstOccurrences (l : list Z) : list Z :=
  match l with
  | [] => []
  | a :: l' => a :: filter (fun b => negb (b =? a)) (firstOccurrences l')
  end.

(** The score of a height as the specification words it: the sum over
    all box types of the least absolute difference between the type's
    three dimensions and the height. *)
Definition minAbsDiff (b : Box) (height : Z) : Z :=
  Z.min (Z.abs (box_w b - height))
        (Z.min (Z.abs (box_h b - height)) (Z.abs (box_d b - height))).

Definition specScore (boxes : list Box) (height : Z) : Z :=
  fold_right (fun b acc => minAbsDiff b height + acc) 0 boxes.

(** The candidates before sorting, in first-occurrence order. *)
Definition expectedCandidates (boxes : list Box) (pallet : Pallet)
  : list LayerCandidate :=
  map (fun height => mkLayer height (specScore boxes height))
      (firstOccurrences
         (filter (fun v => v <=? pal_h pallet) (allDims boxes))).

(** Membership in a list of keys, and the keys of a map after [set]:
    a new key goes to the end. *)
Definition memZ (v : Z) (ks : list Z) : bool := existsb (Z.eqb v) ks.

Definition addKey (ks : list Z) (k : Z) : list Z :=
  if memZ k ks then ks else ks ++ [k].

(** The candidates of a given score, in list order. *)
Definition withScore (s : Z) (l : list LayerCandidate) : list LayerCandidate :=
  filter (fun c => lc_evalScore c =? s) l.

Definition scoreLe (a b : LayerCandidate) : Prop :=
  lc_evalScore a <= lc_evalScore b.





(** The (box index, orientation) pairs that the selection loop of
    [findBestBoxForGap] visits, in the order it visits them: the box
    types with remaining quantity, each in its six orientations. *)
Definition candidatesOf (boxes : list Box) : list (nat * (Z * Z * Z)) :=
  flat_map (fun ib : nat * Box =>
              if box_qty (snd ib) <=? 0 then []
              else map (pair (fst ib)) (orients (snd ib)))
           (indexed boxes).

(** An orientation fits a gap: neither wider nor deeper. *)
Definition fitsGap (gapWidth : Z) (gapDepth : num) (o : Z * Z * Z) : bool :=
  let '(bw, bh, bd) := o in
  negb (bw >? gapWidth) && negb (JsNum.gtb (Fin bd) gapDepth).

(** A candidate for a gap: a box type with remaining quantity in an
    orientation that fits the gap. *)
Definition feasible (boxes : list Box) (gapWidth : Z) (gapDepth : num)
  (i : nat) (o : Z * Z * Z) : Prop :=
  exists box, nth_error boxes i = Some box /\ 0 < box_qty box
              /\ In o (orients box) /\ fitsGap gapWidth gapDepth o = true.

(** The gap that starts at breakpoint [i]: its span, from the
    breakpoint to the next one. *)
Definition gapWidthAt (nodes : list Node) (i : nat) : Z :=
  match skipn i nodes with
  | ni :: ni1 :: _ => node_x ni1 - node_x ni
  | _ => 0
  end.

(** The depth left in the gap at [g]: the pallet depth less the depth
    filled in the gap, the [z] of its breakpoint. *)
Definition ownDepthAt (pallet : Pallet) (nodes : list Node) (g : nat) : num :=
  JsNum.zsub (pal_d pallet) (node_z (nth g nodes (mkNode 0 NegInf))).

(** [(box j, orientation o)] fits the gap at [g]: [g] is a gap of the
    profile with some width and some depth left, box [j] has remaining
    quantity, and [o] is one of its orientations, no wider than the gap
    and no deeper than the depth left in it. *)
Definition fitsGapAt (boxes : list Box) (pallet : Pallet)
  (nodes : list Node) (g j : nat) (o : Z * Z * Z) : Prop :=
  (g < length nodes - 1)%nat
  /\ 0 < gapWidthAt nodes g
  /\ JsNum.leb (ownDepthAt pallet nodes g) (Fin 0) = false
  /\ feasible boxes (gapWidthAt nodes g) (ownDepthAt pallet nodes g) j o.


(** No breakpoint from the gap at [g] to the right end of the profile,
    the sentinel apart, is higher than the gap's own. *)
Definition noHigherRight (nodes : list Node) (g : nat) : Prop :=
  Forall (fun n => JsNum.ltb (node_z (nth g nodes (mkNode 0 NegInf)))
                             (node_z n) = false)
         (removelast (skipn g nodes)).

(** What the loop body of the layer packer measures at the breakpoint
    [i], used in the lemmas on that loop only: the pallet depth less
    the greatest [z] among the breakpoints from [i] to the right end of
    the profile, the sentinel apart ([maxZInSpan]).  This is the depth
    left in the gap at [i] when [noHigherRight nodes i]. *)
Definition measuredDepthAt (pallet : Pallet) (nodes : list Node) (i : nat)
  : num :=
  JsNum.zsub (pal_d pallet) (maxZ (removelast (skipn i nodes))).

(** The loop body admits [(box j, orientation o)] at the breakpoint
    [i]: it passes the tests of the body with the depth measured
    there. *)
Definition admittedAt (boxes : list Box) (pallet : Pallet)
  (nodes : list Node) (i j : nat) (o : Z * Z * Z) : Prop :=
  (i < length nodes - 1)%nat
  /\ 0 < gapWidthAt nodes i
  /\ JsNum.leb (measuredDepthAt pallet nodes i) (Fin 0) = false
  /\ feasible boxes (gapWidthAt nodes i) (measuredDepthAt pallet nodes i) j o.

(** The score the loop body computes for an orientation at [i]. *)
Definition measuredScoreAt (pallet : Pallet) (layerHeight : Z)
  (nodes : list Node) (i : nat) (o : Z * Z * Z) : num :=
  scoreOf (gapWidthAt nodes i) (measuredDepthAt pallet nodes i)
          layerHeight layerHeight o.

(** The placement the layer packer makes of orientation [o] of the box
    [box] in the gap at [i]. *)
Definition placementAt (yBase : Z) (nodes : list Node) (i : nat)
  (box : Box) (o : Z * Z * Z) : PlacedBox :=
  let '(bw, bh, bd) := o in
  let ni := nth i nodes (mkNode 0 NegInf) in
  mkPlaced (box_id box) bw bh bd 1 (node_x ni) yBase
           (if 0 <? bw then node_z ni else NegInf) (bw, bh, bd).

(** The commit the layer packer makes in the gap at [g]: [cand] is the
    candidate selected there, one the loop body admits; the box goes
    at the gap's start, on the depth of the gap's first breakpoint,
    and the skyline is updated over its width to the box's far face. *)
Definition commitsAt (boxes : list Box) (pallet : Pallet) (layerHeight : Z)
  (nodes : list Node) (g : nat) (cand : Cand) (box : Box)
  (nodes' : list Node) : Prop :=
  findBestBoxForGap boxes (gapWidthAt nodes g) (measuredDepthAt pallet nodes g)
                    layerHeight layerHeight = Some cand
  /\ nth_error boxes (cand_index cand) = Some box
  /\ admittedAt boxes pallet nodes g (cand_index cand) (cand_orientation cand)
  /\ (let '(bw, bh, bd) := cand_orientation cand in
      let ng := nth g nodes (mkNode 0 NegInf) in
      let newTop := JsNum.addz (if 0 <? bw then node_z ng else NegInf) bd in
      skylineUpdate nodes (node_x ng) bw newTop = Ok nodes'
      /\ JsNum.gtb newTop (Fin (pal_d pallet)) = false).

(** The total remaining quantity of a catalog (a quantity that is not
    positive counts for nothing). *)
Definition totalQty (boxes : list Box) : nat :=
  fold_right (fun b n => (Z.to_nat (box_qty b) + n)%nat) O boxes.

(** The rounds of the [while (true)] loop of the layer packer as a
    relation: from the catalog [boxes] and the skyline [nodes] the loop
    places [placed], in this order, and ends with the catalog
    [boxesOut]. *)
Inductive rounds (pallet : Pallet) (layerHeight yBase : Z)
  : list Box -> list Node -> list PlacedBox -> list Box -> Prop :=
| rounds_done (boxes : list Box) (nodes : list Node) :
    scanGaps boxes pallet layerHeight yBase nodes = Ok None ->
    rounds pallet layerHeight yBase boxes nodes [] boxes
| rounds_place (boxes : list Box) (nodes nodes' : list Node)
    (pb : PlacedBox) (idx : nat) (placed : list PlacedBox)
    (boxesOut : list Box) :
    scanGaps boxes pallet layerHeight yBase nodes
    = Ok (Some (nodes', pb, idx)) ->
    rounds pallet layerHeight yBase (decQty idx boxes) nodes' placed boxesOut ->
    rounds pallet layerHeight yBase boxes nodes (pb :: placed) boxesOut.





Definition positiveDims (b : Box) : Prop :=
  0 < box_w b /\ 0 < box_h b /\ 0 < box_d b.


(** The layer height a stacking round uses: the current layer height,
    clipped to the headroom left under the pallet height. *)
Definition clippedHeight (pallet : Pallet) (s : Stack) : Z :=
  if pal_h pallet <? currentY s + currentLayerHeight s
  then pal_h pallet - currentY s
  else currentLayerHeight s.



Definition palletVolume (pallet : Pallet) : Z :=
  pal_w pallet * pal_h pallet * pal_d pallet.

(** The penalty for the height of an orientation against the target
    layer height, and the two composite scores: the one the claim
    words, and the one with the penalty weighted by 10000. *)
Definition heightPenalty (target bh : Z) : Z :=
  if bh <=? target then Z.abs (bh - target)
  else 100000 + Z.abs (bh - target).

Definition claimedScore (target gapWidth gapDepth : Z) (o : Z * Z * Z) : Z :=
  let '(bw, bh, bd) := o in
  heightPenalty target bh + 100 * Z.abs (bw - gapWidth)
  + Z.abs (bd - gapDepth).

Definition weightedScore (target gapWidth gapDepth : Z) (o : Z * Z * Z) : Z :=
  let '(bw, bh, bd) := o in
  10000 * heightPenalty target bh + 100 * Z.abs (bw - gapWidth)
  + Z.abs (bd - gapDepth).

(** Up to [2^53] every integer is a double, and the operations of the
    code on such integers are exact as long as their results stay
    within this range. *)
Definition maxExact : Z := 9007199254740992.

(** The number [a] is at least the integer [c]. *)
Definition atLeast (a : num) (c : Z) : Prop :=
  match a with
  | NegInf => False
  | Fin v => c <= v
  | PosInf => True
  end.


(** The body of the selection loop on one (box index, orientation)
    pair of [candidatesOf]. *)
Definition considerPair (gapWidth : Z) (gapDepth : num)
  (layerHeight maxAvailableY : Z) (best : option Cand)
  (io : nat * (Z * Z * Z)) : option Cand :=
  considerOrient gapWidth gapDepth layerHeight maxAvailableY
                 (fst io) best (snd io).






(** The height [bh] of an orientation [(bw, bh, bd)]. *)
Definition orientHeight (o : Z * Z * Z) : Z := snd (fst o).




(** The result of stacking layers of the candidate height [height]
    from the full catalog, for one pass of the candidate loop. *)
Definition stackResult (fuel : nat) (boxes : list Box) (pallet : Pallet)
  (height : Z) : res (list PlacedBox) :=
  stackLoop fuel fuel pallet (mkStack boxes [] 0 height).




(** What the script does with one pallet orientation. *)
Definition packOrientation (fuel : nat) (boxes : list Box)
  (orientation : Pallet) : res (list PlacedBox * quot) :=
  packPalletWithLayers fuel boxes orientation
    (buildLayerCandidates boxes orientation).

(* ================================================================== *)
(** ** Orientation enumerator *)

Lemma uint_commaFree (u : Decimal.uint) :
  commaFree (DecimalString.NilEmpty.string_of_uint u).
Proof.
  induction u; simpl; auto; split; auto; discriminate.
Qed.

Lemma numToString_commaFree (v : Z) : commaFree (numToString v).
Proof.
  unfold numToString, DecimalString.NilZero.string_of_int,
    DecimalString.NilZero.string_of_uint.
  destruct (Z.to_int v) as [u | u]; destruct u; simpl;
    repeat split; try (discriminate);
    apply uint_commaFree.
Qed.

Lemma numToString_inj (u v : Z) : numToString u = numToString v -> u = v.
Proof.
  unfold numToString. intros E.
  apply DecimalZ.to_int_inj.
  assert (N : forall z, Z.to_int z <> Decimal.Pos Decimal.Nil
                        /\ Z.to_int z <> Decimal.Neg Decimal.Nil).
  { intros [| p | p]; simpl; split; try discriminate;
      intros [= H]; revert H; apply DecimalPos.Unsigned.to_uint_nonnil. }
  assert (S : Some (Z.to_int u) = Some (Z.to_int v)).
  { rewrite <- (DecimalString.NilZero.isi (Z.to_int u)) by apply N.
    rewrite <- (DecimalString.NilZero.isi (Z.to_int v)) by apply N.
    now rewrite E. }
  now inversion S.
Qed.

(** A comma-free prefix up to the first comma is determined. *)
Lemma split_at_comma (s s' t t' : string) :
  commaFree s -> commaFree s' ->
  String.append s (String ","%char t)
  = String.append s' (String ","%char t') ->
  s = s' /\ t = t'.
Proof.
  revert s'. induction s as [| c s IH]; intros [| c' s'] F F' E; simpl in *.
  - inversion E. auto.
  - inversion E. subst c'. destruct F' as [F' _]. now elim F'.
  - inversion E. subst c. destruct F as [F _]. now elim F.
  - inversion E. subst c'. destruct F as [_ F], F' as [_ F'].
    destruct (IH s' F F' H1) as [-> ->]. auto.
Qed.

Lemma keyOf_inj (s t : Z * Z * Z) : keyOf s = keyOf t -> s = t.
Proof.
  destruct s as [[a b] c], t as [[a' b'] c']. unfold keyOf. intros E.
  apply split_at_comma in E; try apply numToString_commaFree.
  destruct E as [Ea E].
  apply split_at_comma in E; try apply numToString_commaFree.
  destruct E as [Eb Ec].
  apply numToString_inj in Ea, Eb, Ec. congruence.
Qed.


Lemma tripleEqb_eq (s t : Z * Z * Z) : tripleEqb s t = true <-> s = t.
Proof.
  destruct s as [[a b] c], t as [[a' b'] c']. unfold tripleEqb.
  rewrite !andb_true_iff, !Z.eqb_eq. split.
  - intros [[-> ->] ->]. reflexivity.
  - intros [= -> -> ->]. auto.
Qed.

Lemma seen_key_iff (t : Z * Z * Z) (seen : list (Z * Z * Z)) :
  existsb (String.eqb (keyOf t)) (map keyOf seen)
  = existsb (tripleEqb t) seen.
Proof.
  induction seen as [| s seen IH]; simpl; [reflexivity |].
  rewrite IH. f_equal.
  destruct (String.eqb_spec (keyOf t) (keyOf s)) as [E | E];
    destruct (tripleEqb t s) eqn:T; try reflexivity.
  - apply keyOf_inj in E. apply tripleEqb_eq in E. congruence.
  - apply tripleEqb_eq in T. subst. now elim E.
Qed.

Lemma filterStep_fold (l seen kept : list (Z * Z * Z)) :
  snd (fold_left filterStep l (map keyOf seen, kept))
  = kept ++ dedupFrom seen l.
Proof.
  revert seen kept. induction l as [| t l IH]; intros seen kept; simpl.
  - now rewrite app_nil_r.
  - rewrite seen_key_iff. destruct (existsb (tripleEqb t) seen).
    + apply IH.
    + change (keyOf t :: map keyOf seen) with (map keyOf (t :: seen)).
      rewrite IH, <- app_assoc. reflexivity.
Qed.

Lemma dedupFrom_sound (l seen : list (Z * Z * Z)) :
  NoDup (dedupFrom seen l)
  /\ (forall t, In t (dedupFrom seen l) <-> In t l /\ ~ In t seen).
Proof.
  revert seen. induction l as [| a l IH]; intros seen; simpl.
  - split; [constructor | intros t; tauto].
  - destruct (existsb (tripleEqb a) seen) eqn:E.
    + destruct (IH seen) as [N M]. split; [exact N |].
      intros t. rewrite M. split; [tauto |].
      intros [[-> | H] S]; [| tauto].
      apply existsb_exists in E. destruct E as [s [Hs Es]].
      apply tripleEqb_eq in Es. subst s. contradiction.
    + destruct (IH (a :: seen)) as [N M]. split.
      * constructor; [| exact N]. rewrite M. simpl. tauto.
      * intros t. simpl. rewrite M. simpl. split.
        -- intros [<- | [H S]]; [| tauto]. split; [auto |].
           intros S. assert (X : existsb (tripleEqb a) seen = true).
           { apply existsb_exists. exists a. split; [exact S |].
             now apply tripleEqb_eq. }
           congruence.
        -- intros [[-> | H] S]; [auto |].
           destruct (tripleEqb a t) eqn:T.
           ++ apply tripleEqb_eq in T. auto.
           ++ right. split; [exact H |]. intros [-> | S']; [| tauto].
              assert (X : tripleEqb t t = true) by now apply tripleEqb_eq.
              congruence.
Qed.

(** C8. [getPalletOrientations] returns the permutations of the three
    dimensions in the canonical order (a,b,c), (a,c,b), (b,a,c),
    (b,c,a), (c,a,b), (c,b,a), each kept at its first occurrence and
    dropped afterwards, triples being compared by exact equality; the
    result has no duplicate, contains every permutation, and has 6
    elements when the three values differ, 3 when exactly two coincide
    and 1 when all three coincide, hence between 1 and 6. *)
Theorem getPalletOrientations_dedup (a b c : Z) :
  let result := getPalletOrientations (mkPallet a b c) in
  result = map palletOf (dedupFrom [] (canonicalOrder a b c))
  /\ NoDup (dedupFrom [] (canonicalOrder a b c))
  /\ (forall t, In t (dedupFrom [] (canonicalOrder a b c))
                <-> In t (canonicalOrder a b c))
  /\ length result = expectedCount a b c
  /\ (1 <= length result <= 6)%nat.
Proof.
  cbv zeta.
  assert (R : getPalletOrientations (mkPallet a b c)
              = map palletOf (dedupFrom [] (canonicalOrder a b c))).
  { unfold getPalletOrientations.
    change (@nil string) with (map keyOf []).
    rewrite filterStep_fold. reflexivity. }
  assert (L : length (getPalletOrientations (mkPallet a b c))
              = expectedCount a b c).
  { rewrite R, length_map. unfold expectedCount, canonicalOrder.
    simpl. rewrite !Z.eqb_refl.
    rewrite !(Z.eqb_sym b a), !(Z.eqb_sym c a), !(Z.eqb_sym c b).
    destruct (Z.eqb_spec a b) as [Eab | Nab];
      destruct (Z.eqb_spec b c) as [Ebc | Nbc];
      destruct (Z.eqb_spec a c) as [Eac | Nac];
      simpl; try reflexivity; exfalso; congruence. }
  split; [exact R |].
  destruct (dedupFrom_sound (canonicalOrder a b c) []) as [N M].
  split; [exact N |]. split.
  - intros t. rewrite M. simpl. tauto.
  - split; [exact L |]. rewrite L. unfold expectedCount.
    destruct ((a =? b) && (b =? c)); [lia |].
    destruct ((a =? b) || (b =? c) || (a =? c)); lia.
Qed.

(* ================================================================== *)
(** ** Layer height planner *)

Lemma filter_comp {A : Type} (p q : A -> bool) (l : list A) :
  filter p (filter q l) = filter (fun x => q x && p x) l.
Proof.
  induction l as [| a l IH]; simpl; [reflexivity |].
  destruct (q a); simpl; [destruct (p a) |]; now rewrite IH.
Qed.

Lemma memZ_In (v : Z) (ks : list Z) : memZ v ks = true <-> In v ks.
Proof.
  unfold memZ. rewrite existsb_exists. split.
  - intros [k [H E]]. apply Z.eqb_eq in E. now subst.
  - intros H. exists v. split; [exact H | apply Z.eqb_refl].
Qed.

Lemma memZ_app (v : Z) (ks ks' : list Z) :
  memZ v (ks ++ ks') = memZ v ks || memZ v ks'.
Proof. unfold memZ. apply existsb_app. Qed.

Lemma fold_addKey (l ks : list Z) :
  fold_left addKey l ks
  = ks ++ filter (fun v => negb (memZ v ks)) (firstOccurrences l).
Proof.
  revert ks. induction l as [| a l IH]; intros ks; simpl.
  - now rewrite app_nil_r.
  - rewrite IH. unfold addKey. destruct (memZ a ks) eqn:M; simpl.
    + f_equal. rewrite filter_comp. apply filter_ext. intros v.
      destruct (Z.eqb_spec v a) as [-> | N]; simpl; [now rewrite M | reflexivity].
    + rewrite <- app_assoc. simpl. do 2 f_equal.
      rewrite filter_comp. apply filter_ext. intros v.
      rewrite memZ_app. unfold memZ at 2. simpl. rewrite orb_false_r.
      destruct (Z.eqb_spec v a) as [-> | N]; simpl.
      * now rewrite orb_true_r.
      * now rewrite orb_false_r.
Qed.


Lemma mapSet_pairs (sc : Z -> Z) (ks : list Z) (k : Z) :
  mapSet (map (fun h => (h, sc h)) ks) k (sc k)
  = map (fun h => (h, sc h)) (addKey ks k).
Proof.
  unfold addKey. induction ks as [| a ks IH]; simpl; [reflexivity |].
  unfold memZ in *. simpl. rewrite (Z.eqb_sym k a).
  destruct (Z.eqb_spec a k) as [-> | N]; simpl; [reflexivity |].
  rewrite IH. now destruct (existsb (Z.eqb k) ks).
Qed.

Lemma considerDim_fold (boxes : list Box) (pallet : Pallet) (dims ks : list Z) :
  fold_left (considerDim boxes pallet) dims
            (map (fun h => (h, scoreFor boxes h)) ks)
  = map (fun h => (h, scoreFor boxes h))
        (fold_left addKey (filter (fun v => v <=? pal_h pallet) dims) ks).
Proof.
  revert ks. induction dims as [| a dims IH]; intros ks; simpl; [reflexivity |].
  unfold considerDim at 2. destruct (a <=? pal_h pallet); simpl.
  - rewrite mapSet_pairs. apply IH.
  - apply IH.
Qed.

Lemma fold_left_flat_map {A B C : Type} (f : A -> C -> A) (g : B -> list C)
  (l : list B) (a : A) :
  fold_left (fun acc b => fold_left f (g b) acc) l a
  = fold_left f (flat_map g l) a.
Proof.
  revert a. induction l as [| b l IH]; intros a; simpl; [reflexivity |].
  now rewrite fold_left_app, IH.
Qed.

Lemma scoreFor_spec (boxes : list Box) (dim : Z) :
  scoreFor boxes dim = specScore boxes dim.
Proof.
  unfold scoreFor, specScore.
  assert (G : forall l acc,
             fold_left (fun score b => score + closest b dim) l acc
             = acc + fold_right (fun b a => minAbsDiff b dim + a) 0 l).
  { induction l as [| b l IH]; intros acc; simpl; [lia |].
    rewrite IH. unfold closest, minAbsDiff. lia. }
  rewrite G. lia.
Qed.

Lemma heightsOf_expected (boxes : list Box) (pallet : Pallet) :
  map (fun '(height, evalScore) => mkLayer height evalScore)
      (heightsOf boxes pallet)
  = expectedCandidates boxes pallet.
Proof.
  unfold heightsOf, expectedCandidates, considerBoxDims.
  rewrite (fold_left_flat_map (considerDim boxes pallet) dimsOf).
  change (@nil (Z * Z)) with (map (fun h => (h, scoreFor boxes h)) []).
  rewrite considerDim_fold, fold_addKey. simpl.
  rewrite map_map.
  assert (T : forall l : list Z, filter (fun v => negb (memZ v [])) l = l).
  { induction l as [| a l IH]; [reflexivity |].
    cbn [filter]. change (memZ a []) with false. cbn [negb].
    f_equal. exact IH. }
  rewrite T. apply map_ext. intros h. now rewrite scoreFor_spec.
Qed.

(** The sort: a sorted permutation that keeps equal scores in order. *)
Lemma insertSorted_perm (a : LayerCandidate) (l : list LayerCandidate) :
  Permutation (a :: l) (insertSorted a l).
Proof.
  induction l as [| b l IH]; simpl; [apply Permutation_refl |].
  destruct (compareFn a b <=? 0); [apply Permutation_refl |].
  eapply perm_trans; [apply perm_swap | now apply perm_skip].
Qed.

Lemma sortCandidates_perm (l : list LayerCandidate) :
  Permutation l (sortCandidates l).
Proof.
  induction l as [| a l IH]; simpl; [constructor |].
  eapply perm_trans; [apply perm_skip, IH | apply insertSorted_perm].
Qed.

Lemma insertSorted_sorted (a : LayerCandidate) (l : list LayerCandidate) :
  StronglySorted scoreLe l -> StronglySorted scoreLe (insertSorted a l).
Proof.
  induction l as [| b l IH]; intros S; simpl.
  - repeat constructor.
  - inversion S as [| b' l' Sl Fb]; subst.
    destruct (Z.leb_spec (compareFn a b) 0) as [Le | Gt].
    + constructor; [exact S |]. constructor.
      * unfold scoreLe, compareFn in *. lia.
      * eapply Forall_impl; [| exact Fb].
        unfold scoreLe, compareFn in *. intros c. lia.
    + constructor; [now apply IH |].
      apply (Permutation_Forall (insertSorted_perm a l)).
      constructor; [| exact Fb]. unfold scoreLe, compareFn in *. lia.
Qed.

Lemma sortCandidates_sorted (l : list LayerCandidate) :
  StronglySorted scoreLe (sortCandidates l).
Proof.
  induction l as [| a l IH]; simpl; [constructor |].
  now apply insertSorted_sorted.
Qed.



(** A sorted list is determined by its classes of equal score: whatever
    algorithm the engine's stable sort runs, its result on a list is
    the one of [sortCandidates]. *)
Lemma stable_sorted_unique (l1 l2 : list LayerCandidate) :
  StronglySorted scoreLe l1 -> StronglySorted scoreLe l2 ->
  (forall s, withScore s l1 = withScore s l2) ->
  l1 = l2.
Proof.
  revert l2. induction l1 as [| a l1 IH]; intros l2 S1 S2 W.
  - destruct l2 as [| b l2]; [reflexivity |].
    specialize (W (lc_evalScore b)). unfold withScore in W. simpl in W.
    rewrite Z.eqb_refl in W. discriminate.
  - destruct l2 as [| b l2].
    + specialize (W (lc_evalScore a)). unfold withScore in W. simpl in W.
      rewrite Z.eqb_refl in W. discriminate.
    + inversion S1 as [| a' l1' S1' F1]; subst.
      inversion S2 as [| b' l2' S2' F2]; subst.
      assert (Ia : In a (b :: l2)).
      { pose proof (W (lc_evalScore a)) as Wa. unfold withScore in Wa.
        assert (X : In a (filter (fun c => lc_evalScore c =? lc_evalScore a)
                                 (a :: l1)))
          by (apply filter_In; split; [now left | apply Z.eqb_refl]).
        rewrite Wa in X. now apply filter_In in X. }
      assert (Ib : In b (a :: l1)).
      { pose proof (W (lc_evalScore b)) as Wb. unfold withScore in Wb.
        assert (X : In b (filter (fun c => lc_evalScore c =? lc_evalScore b)
                                 (b :: l2)))
          by (apply filter_In; split; [now left | apply Z.eqb_refl]).
        rewrite <- Wb in X. now apply filter_In in X. }
      assert (E : lc_evalScore a = lc_evalScore b).
      { rewrite Forall_forall in F1, F2. unfold scoreLe in *.
        destruct Ia as [-> | Ia]; [reflexivity |].
        destruct Ib as [-> | Ib]; [reflexivity |].
        specialize (F1 b Ib). specialize (F2 a Ia). lia. }
      assert (Eab : a = b).
      { pose proof (W (lc_evalScore a)) as Wa. unfold withScore in Wa.
        simpl in Wa. rewrite <- E, Z.eqb_refl in Wa. now inversion Wa. }
      subst b. f_equal. apply IH; [assumption | assumption |].
      intros s. specialize (W s). unfold withScore in *. simpl in W.
      destruct (lc_evalScore a =? s); [now inversion W | exact W].
Qed.


(* ================================================================== *)
(** ** Numbers and lists *)

Lemma num_eqb_eq (a b : num) : JsNum.eqb a b = true <-> a = b.
Proof.
  destruct a, b; simpl; split; intros H; try congruence; try discriminate.
  - apply Z.eqb_eq in H. now subst.
  - inversion H. apply Z.eqb_refl.
Qed.

Lemma num_eqb_refl (a : num) : JsNum.eqb a a = true.
Proof. now apply num_eqb_eq. Qed.

Lemma num_ltb_irrefl (a : num) : JsNum.ltb a a = false.
Proof. destruct a; simpl; auto. apply Z.ltb_irrefl. Qed.

(** [a < b] and [b <= c] leave no room for [c < a]. *)
Lemma num_ltb_chain (a b c : num) :
  JsNum.ltb a b = true -> JsNum.ltb c b = false -> JsNum.ltb c a = false.
Proof.
  destruct a, b, c; simpl; intros H1 H2; try reflexivity; try discriminate.
  apply Z.ltb_lt in H1. apply Z.ltb_ge in H2. apply Z.ltb_ge. lia.
Qed.

Lemma num_ltb_trans_ge (a b c : num) :
  JsNum.ltb b a = false -> JsNum.ltb c b = false -> JsNum.ltb c a = false.
Proof.
  destruct a, b, c; simpl; intros H1 H2; try reflexivity; try discriminate.
  apply Z.ltb_ge in H1. apply Z.ltb_ge in H2. apply Z.ltb_ge. lia.
Qed.

Lemma lastOpt_app {A : Type} (l : list A) (a : A) : lastOpt (l ++ [a]) = Some a.
Proof.
  induction l as [| b l IH]; simpl; [reflexivity |].
  destruct (l ++ [a]) eqn:E; [now destruct l | exact IH].
Qed.

Lemma lastOpt_cons {A : Type} (a : A) (l : list A) :
  l <> [] -> lastOpt (a :: l) = lastOpt l.
Proof. destruct l; [congruence | reflexivity]. Qed.

Lemma lastOpt_app_r {A : Type} (l l' : list A) :
  l' <> [] -> lastOpt (l ++ l') = lastOpt l'.
Proof.
  intros N. induction l as [| b l IH]; simpl; [reflexivity |].
  destruct (l ++ l') eqn:E; [| exact IH].
  apply app_eq_nil in E. destruct E. contradiction.
Qed.

Lemma lastOpt_In {A : Type} (l : list A) (a : A) : lastOpt l = Some a -> In a l.
Proof.
  induction l as [| b l IH]; simpl; [discriminate |].
  destruct l; [intros [= ->]; auto | intros H; right; now apply IH].
Qed.

Lemma lastOpt_some {A : Type} (l : list A) :
  l <> [] -> exists a, lastOpt l = Some a.
Proof.
  induction l as [| b l IH]; [congruence |]. intros _.
  destruct l as [| c l]; [now exists b |].
  destruct IH as [a H]; [discriminate |]. exists a. exact H.
Qed.



(* ================================================================== *)
(** ** The skyline profile *)

Lemma mergePush_keeps (acc : list Node) (n : Node) :
  mergePush acc n
  = match acc with
    | [] => [n]
    | last :: acc' =>
        if JsNum.eqb (node_z last) (node_z n) then n :: acc' else n :: acc
    end.
Proof.
  destruct acc as [| last acc']; [reflexivity |]. simpl.
  destruct (JsNum.eqb (node_z last) (node_z n)) eqn:E; [| reflexivity].
  apply num_eqb_eq in E. rewrite E. now destruct n.
Qed.

Lemma mergePush_fold_app (l acc tl : list Node) :
  acc <> [] ->
  fold_left mergePush l (acc ++ tl) = fold_left mergePush l acc ++ tl.
Proof.
  revert acc. induction l as [| n l IH]; intros acc N; simpl; [reflexivity |].
  destruct acc as [| a acc]; [congruence |]. simpl.
  destruct (JsNum.eqb (node_z a) (node_z n)).
  - apply (IH (_ :: acc)). discriminate.
  - apply (IH (n :: a :: acc)). discriminate.
Qed.

(** [mergeNodes] keeps, of every run of equal depths, its last node. *)
Lemma mergeNodes_cons2 (a b : Node) (l : list Node) :
  mergeNodes (a :: b :: l)
  = if JsNum.eqb (node_z a) (node_z b)
    then mergeNodes (b :: l) else a :: mergeNodes (b :: l).
Proof.
  unfold mergeNodes. cbn [fold_left].
  change (mergePush [] a) with [a]. change (mergePush [] b) with [b].
  rewrite (mergePush_keeps [a] b).
  destruct (JsNum.eqb (node_z a) (node_z b)); [reflexivity |].
  change [b; a] with ([b] ++ [a]).
  rewrite mergePush_fold_app by discriminate.
  now rewrite rev_app_distr.
Qed.

Lemma mergeNodes_incl (l : list Node) : incl (mergeNodes l) l.
Proof.
  induction l as [| a l IH]; [intros x [] |].
  destruct l as [| b l]; [intros x H; exact H |].
  rewrite mergeNodes_cons2. destruct (JsNum.eqb (node_z a) (node_z b)).
  - intros x H. right. now apply IH.
  - intros x [<- | H]; [now left | right; now apply IH].
Qed.


Lemma mergeNodes_nonempty (a : Node) (l : list Node) :
  mergeNodes (a :: l) <> [].
Proof.
  revert a. induction l as [| b l IH]; intros a; [discriminate |].
  rewrite mergeNodes_cons2. destruct (JsNum.eqb (node_z a) (node_z b));
    [apply IH | discriminate].
Qed.

Lemma mergeNodes_last (l : list Node) : lastOpt (mergeNodes l) = lastOpt l.
Proof.
  induction l as [| a l IH]; [reflexivity |].
  destruct l as [| b l]; [reflexivity |].
  rewrite mergeNodes_cons2. destruct (JsNum.eqb (node_z a) (node_z b)).
  - rewrite IH. reflexivity.
  - rewrite lastOpt_cons by apply mergeNodes_nonempty. rewrite IH. reflexivity.
Qed.

Lemma mergeNodes_head_z (a : Node) (l : list Node) :
  exists m rest, mergeNodes (a :: l) = m :: rest /\ node_z m = node_z a.
Proof.
  revert a. induction l as [| b l IH]; intros a.
  - exists a, []. auto.
  - rewrite mergeNodes_cons2.
    destruct (JsNum.eqb (node_z a) (node_z b)) eqn:E.
    + destruct (IH b) as [m [rest [H Z]]]. exists m, rest. split; [exact H |].
      apply num_eqb_eq in E. congruence.
    + exists a, (mergeNodes (b :: l)). auto.
Qed.

Lemma mergeNodes_noEqualNeighbours (l : list Node) :
  noEqualNeighbours (mergeNodes l) = true.
Proof.
  induction l as [| a l IH]; [reflexivity |].
  destruct l as [| b l]; [reflexivity |].
  rewrite mergeNodes_cons2.
  destruct (JsNum.eqb (node_z a) (node_z b)) eqn:E; [exact IH |].
  destruct (mergeNodes_head_z b l) as [m [rest [H Z]]].
  rewrite H in *.
  change (negb (JsNum.eqb (node_z a) (node_z m))
          && noEqualNeighbours (m :: rest) = true).
  rewrite Z, E, IH. reflexivity.
Qed.

Lemma takeLeft_spec (x : Z) (nodes out rest : list Node) :
  takeLeft x nodes = (out, rest) ->
  nodes = out ++ rest /\ Forall (fun n => node_x n < x) out.
Proof.
  revert out rest. induction nodes as [| n l IH]; intros out rest; simpl.
  - intros [= <- <-]. auto.
  - destruct (Z.ltb_spec (node_x n) x) as [L | G].
    + destruct (takeLeft x l) as [o r]. intros [= <- <-].
      destruct (IH o r eq_refl) as [-> F]. auto.
    + intros [= <- <-]. auto.
Qed.

Lemma skipInside_suffix (r : Z) (rest0 : list Node) :
  exists skipped, rest0 = skipped ++ skipInside r rest0
                  /\ Forall (fun n => node_x n <= r) skipped.
Proof.
  induction rest0 as [| n l [sk [E F]]]; simpl.
  - exists []. auto.
  - destruct (Z.leb_spec (node_x n) r) as [L | G].
    + exists (n :: sk). split; [simpl; congruence | auto].
    + exists []. auto.
Qed.








(* ================================================================== *)
(** ** Selection of the best box for a gap *)

Lemma indexed_In {A : Type} (l : list A) (s i : nat) (a : A) :
  In (i, a) (combine (seq s (length l)) l)
  <-> (s <= i)%nat /\ nth_error l (i - s) = Some a.
Proof.
  revert s. induction l as [| b l IH]; intros s; simpl.
  - split; [tauto |]. intros [_ H]. now destruct (i - s)%nat.
  - rewrite IH. split.
    + intros [[= <- <-] | [L H]].
      * split; [lia |]. now rewrite Nat.sub_diag.
      * split; [lia |]. replace (i - s)%nat with (S (i - S s)) by lia. exact H.
    + intros [L H]. destruct (i - s)%nat as [| k] eqn:E.
      * left. inversion H. f_equal. lia.
      * right. split; [lia |]. replace (i - S s)%nat with k by lia. exact H.
Qed.

Lemma candidatesOf_In (boxes : list Box) (i : nat) (o : Z * Z * Z) :
  In (i, o) (candidatesOf boxes)
  <-> exists box, nth_error boxes i = Some box /\ 0 < box_qty box
                  /\ In o (orients box).
Proof.
  unfold candidatesOf, indexed. rewrite in_flat_map. split.
  - intros [[j box] [I H]]. apply indexed_In in I. destruct I as [_ N].
    rewrite Nat.sub_0_r in N. cbn [fst snd] in H.
    destruct (Z.leb_spec (box_qty box) 0) as [L | G]; [destruct H |].
    apply in_map_iff in H. destruct H as [o' [[= <- <-] Io]].
    exists box. auto.
  - intros [box [N [Q Io]]]. exists (i, box). split.
    + apply indexed_In. rewrite Nat.sub_0_r. split; [lia | exact N].
    + cbn [fst snd]. destruct (Z.leb_spec (box_qty box) 0) as [L | G]; [lia |].
      now apply in_map.
Qed.

Section BestForGap.

Variables (gapWidth : Z) (gapDepth : num) (layerHeight maxAvailableY : Z).

Lemma considerOrient_fits (i : nat) (best : option Cand) (o : Z * Z * Z) :
  considerOrient gapWidth gapDepth layerHeight maxAvailableY i best o
  = let score := scoreOf gapWidth gapDepth layerHeight maxAvailableY o in
    if fitsGap gapWidth gapDepth o
    then match best with
         | None => Some (mkCand i o score)
         | Some b => if JsNum.ltb score (cand_score b)
                     then Some (mkCand i o score) else best
         end
    else best.
Proof.
  destruct o as [[bw bh] bd]. unfold considerOrient, fitsGap.
  destruct (bw >? gapWidth); [reflexivity |].
  destruct (JsNum.gtb (Fin bd) gapDepth); reflexivity.
Qed.

Lemma findBest_as_fold (boxes : list Box) :
  findBestBoxForGap boxes gapWidth gapDepth layerHeight maxAvailableY
  = fold_left (considerPair gapWidth gapDepth layerHeight maxAvailableY)
              (candidatesOf boxes) None.
Proof.
  unfold findBestBoxForGap, candidatesOf. generalize (indexed boxes).
  generalize (@None Cand).
  intros best l. revert best. induction l as [| [i box] l IH]; intros best;
    [reflexivity |].
  cbn [fold_left flat_map fst snd]. rewrite fold_left_app, IH. f_equal.
  unfold considerBox. destruct (box_qty box <=? 0); [reflexivity |].
  generalize (orients box). intros os. revert best.
  induction os as [| o os IHo]; intros best; [reflexivity |].
  cbn [fold_left map]. apply IHo.
Qed.

Lemma best_of_fold (l : list (nat * (Z * Z * Z))) :
  match fold_left (considerPair gapWidth gapDepth layerHeight maxAvailableY)
                  l None with
  | None => forall i o, In (i, o) l -> fitsGap gapWidth gapDepth o = false
  | Some c =>
      In (cand_index c, cand_orientation c) l
      /\ fitsGap gapWidth gapDepth (cand_orientation c) = true
      /\ cand_score c
         = scoreOf gapWidth gapDepth layerHeight maxAvailableY
                   (cand_orientation c)
      /\ forall i o,
           In (i, o) l -> fitsGap gapWidth gapDepth o = true ->
           JsNum.ltb (scoreOf gapWidth gapDepth layerHeight maxAvailableY o)
                     (cand_score c) = false
  end.
Proof.
  induction l as [| [j o] l IH] using rev_ind; [intros i o [] |].
  rewrite fold_left_app. cbn [fold_left]. unfold considerPair at 1.
  cbn [fst snd]. rewrite considerOrient_fits. cbv zeta.
  set (best := fold_left
                 (considerPair gapWidth gapDepth layerHeight maxAvailableY)
                 l None) in *.
  set (score := scoreOf gapWidth gapDepth layerHeight maxAvailableY) in *.
  destruct (fitsGap gapWidth gapDepth o) eqn:Fo.
  - destruct best as [b |].
    + destruct IH as [Ib [Fb [Sb Mb]]].
      destruct (JsNum.ltb (score o) (cand_score b)) eqn:Lt; cbn.
      * split; [apply in_or_app; right; now left |].
        split; [exact Fo |]. split; [reflexivity |].
        intros i o' I Fo'. apply in_app_or in I.
        destruct I as [I | [[= <- <-] | []]].
        -- eapply num_ltb_chain; [exact Lt | now apply (Mb i)].
        -- apply num_ltb_irrefl.
      * split; [apply in_or_app; now left |].
        split; [exact Fb |]. split; [exact Sb |].
        intros i o' I Fo'. apply in_app_or in I.
        destruct I as [I | [[= <- <-] | []]]; [now apply (Mb i) | exact Lt].
    + cbn. split; [apply in_or_app; right; now left |].
      split; [exact Fo |]. split; [reflexivity |].
      intros i o' I Fo'. apply in_app_or in I.
      destruct I as [I | [[= <- <-] | []]].
      * rewrite (IH i o' I) in Fo'. discriminate.
      * apply num_ltb_irrefl.
  - destruct best as [b |].
    + destruct IH as [Ib [Fb [Sb Mb]]].
      split; [apply in_or_app; now left |].
      split; [exact Fb |]. split; [exact Sb |].
      intros i o' I Fo'. apply in_app_or in I.
      destruct I as [I | [[= <- <-] | []]]; [now apply (Mb i) | congruence].
    + intros i o' I. apply in_app_or in I.
      destruct I as [I | [[= <- <-] | []]]; [now apply (IH i) | exact Fo].
Qed.

(** The candidate returned is feasible, carries the score of its
    orientation, and no feasible candidate scores less. *)
Lemma findBest_some (boxes : list Box) (c : Cand) :
  findBestBoxForGap boxes gapWidth gapDepth layerHeight maxAvailableY
  = Some c ->
  feasible boxes gapWidth gapDepth (cand_index c) (cand_orientation c)
  /\ cand_score c
     = scoreOf gapWidth gapDepth layerHeight maxAvailableY
               (cand_orientation c)
  /\ forall i o,
       feasible boxes gapWidth gapDepth i o ->
       JsNum.ltb (scoreOf gapWidth gapDepth layerHeight maxAvailableY o)
                 (cand_score c) = false.
Proof.
  rewrite findBest_as_fold. intros E.
  pose proof (best_of_fold (candidatesOf boxes)) as B. rewrite E in B.
  destruct B as [I [F [S M]]]. apply candidatesOf_In in I.
  destruct I as [box [N [Q Io]]]. split; [exists box; auto |].
  split; [exact S |]. intros i o [bx [Nx [Qx [Iox Fx]]]].
  apply (M i); [| exact Fx]. apply candidatesOf_In. exists bx. auto.
Qed.

Lemma findBest_none (boxes : list Box) :
  findBestBoxForGap boxes gapWidth gapDepth layerHeight maxAvailableY = None ->
  forall i o, ~ feasible boxes gapWidth gapDepth i o.
Proof.
  rewrite findBest_as_fold. intros E i o [bx [Nx [Qx [Iox Fx]]]].
  pose proof (best_of_fold (candidatesOf boxes)) as B. rewrite E in B.
  rewrite (B i o) in Fx; [discriminate |].
  apply candidatesOf_In. exists bx. auto.
Qed.

End BestForGap.

(* ================================================================== *)
(** ** One gap of the layer packer *)

Lemma num_max_ge_l (m v : num) : JsNum.ltb (JsNum.max m v) m = false.
Proof.
  unfold JsNum.max. destruct (JsNum.ltb m v) eqn:E; [| apply num_ltb_irrefl].
  destruct m, v; simpl in *; try reflexivity; try discriminate.
  apply Z.ltb_lt in E. apply Z.ltb_ge. lia.
Qed.

Lemma maxZ_fold_ge (l : list Node) (m : num) :
  JsNum.ltb (fold_left (fun a n => JsNum.max a (node_z n)) l m) m = false.
Proof.
  revert m. induction l as [| n l IH]; intros m; simpl; [apply num_ltb_irrefl |].
  apply num_ltb_trans_ge with (b := JsNum.max m (node_z n));
    [apply num_max_ge_l | apply IH].
Qed.

Lemma maxZ_ge_head (a : Node) (l : list Node) :
  JsNum.ltb (maxZ (a :: l)) (node_z a) = false.
Proof.
  unfold maxZ. cbn [fold_left].
  apply num_ltb_trans_ge with (b := JsNum.max NegInf (node_z a));
    [| apply maxZ_fold_ge].
  destruct (node_z a); reflexivity || apply Z.ltb_irrefl.
Qed.

Lemma maxZ_single (a : Node) : maxZ [a] = node_z a.
Proof. unfold maxZ. simpl. now destruct (node_z a). Qed.

Lemma spanLoop_first (gapX bw : Z) (ni1 : Node) (rest : list Node) :
  bw <= node_x ni1 - gapX ->
  spanLoop gapX bw (ni1 :: rest) 0 0
  = if 0 <? bw then (node_x ni1 - gapX, 1%nat) else (0, 0%nat).
Proof.
  intros L. cbn [spanLoop]. destruct (0 <? bw); [| reflexivity].
  destruct rest as [| n rest]; [reflexivity |]. cbn [spanLoop].
  destruct (Z.ltb_spec (node_x ni1 - gapX) bw); [lia | reflexivity].
Qed.

(** The two late checks of the loop body never reject the candidate
    that was selected for the gap. *)
Lemma exact_depth_fits (D bd : Z) (M zi : num) :
  JsNum.ltb M zi = false ->
  JsNum.leb (JsNum.zsub D M) (Fin 0) = false ->
  JsNum.gtb (Fin bd) (JsNum.zsub D M) = false ->
  JsNum.gtb (JsNum.addz zi bd) (Fin D) = false.
Proof.
  unfold JsNum.gtb, JsNum.leb.
  destruct M, zi; simpl; intros H1 H2 H3; try reflexivity; try discriminate.
  apply Z.ltb_ge in H1, H3. apply Z.ltb_ge. lia.
Qed.

Lemma skylineUpdate_ok (nodes : list Node) (x bw : Z) (newTop : num) :
  nodes <> [] -> exists nodes', skylineUpdate nodes x bw newTop = Ok nodes'.
Proof.
  intros N. unfold skylineUpdate. destruct (takeLeft x nodes) as [o r].
  destruct (lastOpt_some nodes N) as [s ->].
  destruct (x + bw <? node_x s); eexists; reflexivity.
Qed.

Lemma skipn_gap (nodes : list Node) (i : nat) (ni ni1 : Node)
  (rest : list Node) :
  skipn i nodes = ni :: ni1 :: rest ->
  (i < length nodes - 1)%nat /\ nth i nodes (mkNode 0 NegInf) = ni
  /\ nodes <> [] /\ In ni nodes /\ In ni1 nodes.
Proof.
  intros E. pose proof (firstn_skipn i nodes) as S. rewrite E in S.
  assert (Li : length (firstn i nodes) = i).
  { apply firstn_length_le. destruct (Nat.le_gt_cases i (length nodes)) as [L | G];
      [exact L |]. rewrite skipn_all2 in E by lia. discriminate. }
  split; [| split; [| split; [| split]]].
  - rewrite <- S, length_app, Li. simpl. lia.
  - rewrite <- S, app_nth2 by lia. rewrite Li, Nat.sub_diag. reflexivity.
  - intros ->. now destruct (firstn i []).
  - rewrite <- S. apply in_or_app. right. now left.
  - rewrite <- S. apply in_or_app. right. right. now left.
Qed.

Lemma skipn_short (nodes : list Node) (i : nat) :
  (i < length nodes - 1)%nat ->
  exists ni ni1 rest, skipn i nodes = ni :: ni1 :: rest.
Proof.
  intros L. pose proof (length_skipn i nodes) as S.
  destruct (skipn i nodes) as [| ni [| ni1 rest]]; simpl in S; try lia.
  now exists ni, ni1, rest.
Qed.

(** What the body of the gap loop does at index [i]: it goes on to the
    next gap exactly when the gap has no candidate, and otherwise
    commits the candidate selected for this gap. *)
Lemma tryGap_spec (boxes : list Box) (pallet : Pallet)
  (layerHeight yBase : Z) (nodes : list Node) (i : nat) :
  (i < length nodes - 1)%nat ->
  (tryGap boxes pallet layerHeight yBase nodes i = Ok None
   /\ forall j o, ~ admittedAt boxes pallet nodes i j o)
  \/ (exists cand box nodes',
        commitsAt boxes pallet layerHeight nodes i cand box nodes'
        /\ tryGap boxes pallet layerHeight yBase nodes i
           = Ok (Some (nodes',
                       placementAt yBase nodes i box (cand_orientation cand),
                       cand_index cand))).
Proof.
  intros Li. destruct (skipn_short nodes i Li) as [ni [ni1 [rest Sk]]].
  destruct (skipn_gap _ _ _ _ _ Sk) as [_ [Ni [Ne _]]].
  unfold commitsAt, tryGap, admittedAt, gapWidthAt, measuredDepthAt, placementAt.
  rewrite Sk, Ni.
  set (gw := node_x ni1 - node_x ni).
  set (M := maxZ (removelast (ni :: ni1 :: rest))).
  destruct (Z.leb_spec gw 0) as [Lw | Gw].
  { left. split; [reflexivity |]. intros j o [_ [H _]]. lia. }
  destruct (JsNum.leb (JsNum.zsub (pal_d pallet) M) (Fin 0)) eqn:Ld.
  { left. split; [reflexivity |]. intros j o [_ [_ [H _]]]. discriminate. }
  destruct (findBestBoxForGap boxes gw (JsNum.zsub (pal_d pallet) M)
              layerHeight layerHeight) as [cand |] eqn:Fb.
  2:{ left. split; [reflexivity |]. intros j o [_ [_ [_ H]]].
      exact (findBest_none _ _ _ _ _ Fb j o H). }
  right. destruct (findBest_some _ _ _ _ _ _ Fb) as [Fc _].
  pose proof Fc as [box [Nb [Qb [Io Fo]]]].
  rewrite Nb. destruct (cand_orientation cand) as [[bw bh] bd] eqn:Eo.
  unfold fitsGap in Fo. apply andb_true_iff in Fo. destruct Fo as [Fw Fd].
  apply negb_true_iff in Fw, Fd.
  assert (Hw : bw <= gw)
    by (destruct (Z.gtb_spec bw gw); [discriminate | lia]).
  rewrite (spanLoop_first _ _ _ _ Hw).
  assert (Ez : maxZ (firstn (if 0 <? bw then 1%nat else 0%nat)
                            (ni :: ni1 :: rest))
               = if 0 <? bw then node_z ni else NegInf).
  { destruct (0 <? bw); [apply (maxZ_single ni) | reflexivity]. }
  assert (Gz : JsNum.gtb (JsNum.addz (if 0 <? bw then node_z ni else NegInf) bd)
                 (Fin (pal_d pallet)) = false).
  { destruct (0 <? bw); [| reflexivity].
    apply exact_depth_fits with (M := M); auto.
    apply (maxZ_ge_head ni (removelast (ni1 :: rest))). }
  destruct (skylineUpdate_ok nodes (node_x ni) bw
              (JsNum.addz (if 0 <? bw then node_z ni else NegInf) bd) Ne)
    as [nodes' Up].
  exists cand, box, nodes'. rewrite Eo. split.
  { split; [reflexivity |]. split; [exact Nb |].
    split; [repeat split; auto; rewrite <- Eo; exact Fc |].
    split; assumption. }
  destruct (0 <? bw) eqn:Pw.
  - assert (Xw : (gw <? bw) = false) by (apply Z.ltb_ge; lia).
    unfold gw in Xw. rewrite Xw, Ez, Gz, Up. reflexivity.
  - rewrite Pw, Ez. cbn [JsNum.addz JsNum.gtb JsNum.ltb] in Up |- *.
    rewrite Up. reflexivity.
Qed.

(** The scan over the gaps stops at the first index whose attempt does
    not go on to the next gap. *)
Lemma scanFrom_spec (try : nat -> res (option Placement)) (i n : nat) :
  (scanFrom try i n = Ok None
   /\ forall k, (i <= k < i + n)%nat -> try k = Ok None)
  \/ (exists g, (i <= g < i + n)%nat
                /\ (forall k, (i <= k < g)%nat -> try k = Ok None)
                /\ try g <> Ok None
                /\ scanFrom try i n = try g).
Proof.
  revert i. induction n as [| n IH]; intros i; simpl.
  - left. split; [reflexivity | intros k H; lia].
  - destruct (try i) as [[p |] | |] eqn:E.
    + right. exists i. split; [lia |]. split; [intros k H; lia |].
      split; [rewrite E; discriminate | now rewrite E].
    + destruct (IH (S i)) as [[R N] | [g [Hg [N [T R]]]]].
      * left. split; [exact R |]. intros k Hk.
        destruct (Nat.eq_dec k i) as [-> | D]; [exact E | apply N; lia].
      * right. exists g. repeat split; try lia; auto.
        intros k Hk. destruct (Nat.eq_dec k i) as [-> | D]; [exact E | apply N; lia].
    + right. exists i. split; [lia |]. split; [intros k H; lia |].
      split; [rewrite E; discriminate | now rewrite E].
    + right. exists i. split; [lia |]. split; [intros k H; lia |].
      split; [rewrite E; discriminate | now rewrite E].
Qed.

(** One round of the layer packer: either no gap has a candidate and
    the round places nothing, or the round commits in the leftmost gap
    that has a candidate. *)
Lemma scanGaps_spec (boxes : list Box) (pallet : Pallet)
  (layerHeight yBase : Z) (nodes : list Node) :
  (scanGaps boxes pallet layerHeight yBase nodes = Ok None
   /\ forall i j o, ~ admittedAt boxes pallet nodes i j o)
  \/ (exists g cand box nodes',
        (forall i j o, (i < g)%nat -> ~ admittedAt boxes pallet nodes i j o)
        /\ commitsAt boxes pallet layerHeight nodes g cand box nodes'
        /\ scanGaps boxes pallet layerHeight yBase nodes
           = Ok (Some (nodes',
                       placementAt yBase nodes g box (cand_orientation cand),
                       cand_index cand))).
Proof.
  unfold scanGaps.
  destruct (scanFrom_spec (tryGap boxes pallet layerHeight yBase nodes)
              0 (length nodes - 1)) as [[R N] | [g [Hg [N [T R]]]]].
  - left. split; [exact R |]. intros i j o F. pose proof F as [Li _].
    destruct (tryGap_spec boxes pallet layerHeight yBase nodes i Li)
      as [[_ X] | [cand [box [nodes' [_ Y]]]]].
    + exact (X j o F).
    + rewrite N in Y by lia. discriminate.
  - right.
    destruct (tryGap_spec boxes pallet layerHeight yBase nodes g)
      as [[X _] | [cand [box [nodes' [C Y]]]]]; [lia | contradiction |].
    exists g, cand, box, nodes'. split; [| split; [exact C | congruence]].
    intros i j o Hi F. pose proof F as [Li _].
    destruct (tryGap_spec boxes pallet layerHeight yBase nodes i Li)
      as [[_ X] | [cand2 [box2 [nodes2 [_ Y2]]]]].
    + exact (X j o F).
    + rewrite N in Y2 by lia. discriminate.
Qed.

(* ================================================================== *)
(** ** The rounds of the layer packer *)

Lemma decQty_nth (boxes : list Box) (idx : nat) (box : Box) :
  nth_error boxes idx = Some box ->
  nth_error (decQty idx boxes) idx
  = Some (mkBox (box_id box) (box_w box) (box_h box) (box_d box)
                (box_qty box - 1))
  /\ forall k, k <> idx -> nth_error (decQty idx boxes) k = nth_error boxes k.
Proof.
  revert idx. induction boxes as [| b l IH]; intros [| idx] H;
    try discriminate; simpl in *.
  - inversion H; subst. split; [reflexivity |].
    intros [| k] D; [congruence | reflexivity].
  - destruct (IH idx H) as [E N]. split; [exact E |].
    intros [| k] D; [reflexivity |]. apply N. congruence.
Qed.

Lemma totalQty_decQty (boxes : list Box) (idx : nat) (box : Box) :
  nth_error boxes idx = Some box -> 0 < box_qty box ->
  S (totalQty (decQty idx boxes)) = totalQty boxes.
Proof.
  revert idx. induction boxes as [| b l IH]; intros [| idx] H Q;
    try discriminate; simpl in *.
  - inversion H; subst. lia.
  - rewrite <- (IH idx H Q). lia.
Qed.









Lemma orients_positive (box : Box) (bw bh bd : Z) :
  positiveDims box -> In (bw, bh, bd) (orients box) ->
  0 < bw /\ 0 < bh /\ 0 < bd.
Proof.
  unfold orients, positiveDims. simpl.
  intros P [E | [E | [E | [E | [E | [E | []]]]]]]; inversion E; subst; tauto.
Qed.



(** What a committing round is, read off [scanGaps_spec]. *)
Lemma scanGaps_commit (boxes : list Box) (pallet : Pallet)
  (layerHeight yBase : Z) (nodes nodes' : list Node) (pb : PlacedBox)
  (idx : nat) :
  scanGaps boxes pallet layerHeight yBase nodes = Ok (Some (nodes', pb, idx)) ->
  exists g cand box,
    (forall i j o, (i < g)%nat -> ~ admittedAt boxes pallet nodes i j o)
    /\ commitsAt boxes pallet layerHeight nodes g cand box nodes'
    /\ pb = placementAt yBase nodes g box (cand_orientation cand)
    /\ idx = cand_index cand.
Proof.
  intros E.
  destruct (scanGaps_spec boxes pallet layerHeight yBase nodes)
    as [[R _] | [g [cand [box [n' [N [C R]]]]]]]; rewrite E in R;
    [discriminate |].
  inversion R; subst. exists g, cand, box. auto.
Qed.

(** The box a round places: a type of the catalog with remaining
    quantity, in one of its orientations, at the layer's elevation. *)
Lemma scanGaps_places (boxes : list Box) (pallet : Pallet)
  (layerHeight yBase : Z) (nodes nodes' : list Node) (pb : PlacedBox)
  (idx : nat) :
  scanGaps boxes pallet layerHeight yBase nodes = Ok (Some (nodes', pb, idx)) ->
  exists box, nth_error boxes idx = Some box /\ 0 < box_qty box
              /\ pb_id pb = box_id box
              /\ In (pb_w pb, pb_h pb, pb_d pb) (orients box)
              /\ pb_y pb = yBase.
Proof.
  intros E. apply scanGaps_commit in E.
  destruct E as [g [cand [box [_ [[_ [Nb [[_ [_ [_ F]]] _]]] [-> ->]]]]]].
  destruct F as [bx [Nx [Qx [Io _]]]]. rewrite Nb in Nx. inversion Nx; subst bx.
  exists box. unfold placementAt.
  destruct (cand_orientation cand) as [[bw bh] bd]. simpl. auto.
Qed.

Lemma packLoop_rounds (pallet : Pallet) (layerHeight yBase : Z) (fuel : nat) :
  forall boxes nodes placed0,
    (totalQty boxes < fuel)%nat ->
    exists placed boxesOut,
      packLoop fuel pallet layerHeight yBase boxes nodes placed0
      = Ok (placed0 ++ placed, boxesOut)
      /\ rounds pallet layerHeight yBase boxes nodes placed boxesOut.
Proof.
  induction fuel as [| fuel IH]; intros boxes nodes placed0 L; [lia |].
  cbn [packLoop].
  destruct (scanGaps_spec boxes pallet layerHeight yBase nodes)
    as [[R _] | [g [cand [box [nodes' [_ [C R]]]]]]].
  - rewrite R. exists [], boxes. rewrite app_nil_r.
    split; [reflexivity | now constructor].
  - rewrite R. destruct (scanGaps_places _ _ _ _ _ _ _ _ R)
      as [bx [Nb [Qb _]]].
    pose proof (totalQty_decQty _ _ _ Nb Qb) as T.
    destruct (IH (decQty (cand_index cand) boxes) nodes'
                 (placed0 ++ [placementAt yBase nodes g box
                                (cand_orientation cand)]))
      as [placed [boxesOut [E Rd]]]; [lia |].
    exists (placementAt yBase nodes g box (cand_orientation cand) :: placed),
      boxesOut.
    rewrite E, <- app_assoc. split; [reflexivity |].
    econstructor; eassumption.
Qed.

(** Every round takes one unit off the total remaining quantity. *)
Lemma rounds_totalQty (pallet : Pallet) (layerHeight yBase : Z)
  (boxes : list Box) (nodes : list Node) (placed : list PlacedBox)
  (boxesOut : list Box) :
  rounds pallet layerHeight yBase boxes nodes placed boxesOut ->
  (totalQty boxesOut + length placed = totalQty boxes)%nat.
Proof.
  induction 1 as [| boxes nodes nodes' pb idx placed boxesOut E R IH];
    simpl; [lia |].
  destruct (scanGaps_places _ _ _ _ _ _ _ _ E) as [bx [Nb [Qb _]]].
  pose proof (totalQty_decQty _ _ _ Nb Qb). lia.
Qed.









(* ================================================================== *)
(** ** Containment in the cross-section *)








(* ================================================================== *)
(** ** Stacking the layers *)

(** A run of the loop that returned is a sequence of rounds. *)
Lemma packLoop_sound (pallet : Pallet) (layerHeight yBase : Z) (fuel : nat) :
  forall boxes nodes placed0 result boxesOut,
    packLoop fuel pallet layerHeight yBase boxes nodes placed0
    = Ok (result, boxesOut) ->
    exists placed,
      result = placed0 ++ placed
      /\ rounds pallet layerHeight yBase boxes nodes placed boxesOut.
Proof.
  induction fuel as [| fuel IH]; intros boxes nodes placed0 result boxesOut E;
    [discriminate |].
  cbn [packLoop] in E.
  destruct (scanGaps boxes pallet layerHeight yBase nodes)
    as [[[[n' pb] idx] |] | |] eqn:S; try discriminate.
  - apply IH in E. destruct E as [placed [-> R]].
    exists (pb :: placed). rewrite <- app_assoc. split; [reflexivity |].
    econstructor; eassumption.
  - inversion E; subst. exists []. rewrite app_nil_r.
    split; [reflexivity | now constructor].
Qed.

Lemma packLayerSkyline_sound (fuel : nat) (boxes : list Box) (pallet : Pallet)
  (layerHeight yBase : Z) (placed : list PlacedBox) (boxesOut : list Box) :
  packLayerSkyline fuel boxes pallet layerHeight yBase
  = Ok (placed, boxesOut) ->
  rounds pallet layerHeight yBase boxes (initialNodes pallet) placed boxesOut.
Proof.
  unfold packLayerSkyline. intros E. apply packLoop_sound in E.
  destruct E as [pl [-> R]]. exact R.
Qed.




(** One stacking round: it leaves the loop with what was placed so
    far, or the layer packer placed at least one box and the round
    goes on from the state described. *)
Lemma stackStep_spec (fuel : nat) (pallet : Pallet) (s : Stack)
  (r : list PlacedBox + Stack) :
  stackStep fuel pallet s = Ok r ->
  r = inl (placedAll s)
  \/ exists p ps boxesOut,
       currentY s < pal_h pallet
       /\ packLayerSkyline fuel (remainingBoxes s) pallet
            (clippedHeight pallet s) (currentY s) = Ok (p :: ps, boxesOut)
       /\ r = inr (mkStack boxesOut (placedAll s ++ p :: ps)
                     (currentY s
                      + Z.max (clippedHeight pallet s) (maxPlacedH p ps))
                     (clippedHeight pallet s)).
Proof.
  unfold stackStep, clippedHeight.
  destruct (Z.ltb_spec (currentY s) (pal_h pallet)) as [Ly | Gy]; cbn [negb].
  2:{ intros [= <-]. now left. }
  set (clip := pal_h pallet <? currentY s + currentLayerHeight s).
  set (h := if clip then pal_h pallet - currentY s else currentLayerHeight s).
  destruct (clip && (h <=? 0)); [intros [= <-]; now left |].
  destruct (packLayerSkyline fuel (remainingBoxes s) pallet h (currentY s))
    as [[[| p ps] boxesOut] | |]; try discriminate.
  - intros [= <-]. now left.
  - intros [= <-]. right. exists p, ps, boxesOut. auto.
Qed.

Lemma stackStep_total (fuel : nat) (pallet : Pallet) (s : Stack) :
  (totalQty (remainingBoxes s) < fuel)%nat ->
  exists r, stackStep fuel pallet s = Ok r.
Proof.
  intros L. unfold stackStep.
  destruct (negb (currentY s <? pal_h pallet)); [eexists; reflexivity |].
  match goal with |- context [if ?c then Ok _ else _] => destruct c end;
    [eexists; reflexivity |].
  match goal with |- context [packLayerSkyline fuel ?b ?p ?h ?y] =>
    destruct (packLoop_rounds p h y fuel b (initialNodes p) [] L)
      as [placed [boxesOut [E _]]]
  end.
  unfold packLayerSkyline. rewrite E. simpl.
  destruct placed; eexists; reflexivity.
Qed.

(** The stacking loop returns, and what it returns is the placement
    list of a state reached through rounds that keep [P]. *)
Lemma stackLoop_spec (fuel : nat) (pallet : Pallet) (P : Stack -> Prop) :
  (forall s s', P s -> stackStep fuel pallet s = Ok (inr s') -> P s') ->
  forall n s,
    P s -> (totalQty (remainingBoxes s) < n)%nat ->
    (totalQty (remainingBoxes s) < fuel)%nat ->
    exists s', stackLoop n fuel pallet s = Ok (placedAll s') /\ P s'.
Proof.
  intros Step. induction n as [| n IH]; intros s Ps Ln Lf; [lia |].
  cbn [stackLoop]. destruct (stackStep_total fuel pallet s Lf) as [r E].
  rewrite E. destruct (stackStep_spec _ _ _ _ E)
    as [-> | [p [ps [boxesOut [_ [Pk ->]]]]]].
  - exists s. auto.
  - pose proof (packLayerSkyline_sound _ _ _ _ _ _ _ Pk) as R.
    pose proof (rounds_totalQty _ _ _ _ _ _ _ R) as T.
    cbn [length] in T.
    apply IH; [eapply Step; eassumption | |]; cbn [remainingBoxes]; lia.
Qed.


(** The loop over the layer candidates returns, and its result keeps
    whatever [I] the starting best and every improving candidate have. *)
Lemma tryCandidates_spec (fuel : nat) (boxes : list Box) (pallet : Pallet)
  (I : list PlacedBox -> quot -> Prop) :
  (forall c bp bu placed,
      I bp bu ->
      stackLoop fuel fuel pallet (mkStack boxes [] 0 (lc_height c)) = Ok placed ->
      quotGtb (jsDiv (usedVol placed) (palletVolume pallet)) bu = true ->
      I placed (jsDiv (usedVol placed) (palletVolume pallet))) ->
  (totalQty boxes < fuel)%nat ->
  forall cands bp bu,
    I bp bu ->
    exists placed u,
      tryCandidates fuel boxes pallet cands bp bu = Ok (placed, u)
      /\ I placed u.
Proof.
  intros Better L. induction cands as [| c cands IH]; intros bp bu Ib.
  - exists bp, bu. auto.
  - cbn [tryCandidates].
    destruct (stackLoop_spec fuel pallet (fun _ => True) (fun _ _ _ _ => Logic.I)
                fuel (mkStack boxes [] 0 (lc_height c)) Logic.I L L)
      as [s' [E _]].
    rewrite E. fold (palletVolume pallet).
    destruct (quotGtb (jsDiv (usedVol (placedAll s')) (palletVolume pallet)) bu)
      eqn:G.
    + apply IH. eapply Better; eassumption.
    + apply IH. exact Ib.
Qed.






(* ================================================================== *)
(** ** Utilization *)





(** C5 fails on the code.  The pallet packer clips the layer height
    to the headroom left under the pallet height, and the layer packer
    then places a box that is taller than the layer: the selection
    only penalizes a height above the layer height.  Here a cube of
    side 10 is placed in a pallet of height 1 (the layer height 1 comes
    from a box type that is out of stock); the placed volume is 1000,
    the pallet volume 100, the utilization 10. *)
Example packPalletWithLayers_overfull :
  let boxes := [mkBox "a" 1 1 1 0; mkBox "b" 10 10 10 1] in
  let pallet := mkPallet 10 1 10 in
  exists placed u,
    packPalletWithLayers 2 boxes pallet (buildLayerCandidates boxes pallet)
    = Ok (placed, QFin u)
    /\ ~ (u <= 1)%Q
    /\ palletVolume pallet < usedVol placed.
Proof.
  cbv zeta. eexists. eexists. split; [vm_compute; reflexivity |].
  split; [| vm_compute; reflexivity].
  unfold Qle. simpl. lia.
Qed.

(** The same on a pallet that the boxes fit: two cubes of side 10 in a
    pallet 10 by 15 by 10.  The first layer takes one cube; the second
    layer is clipped to the headroom of 5, and the second cube is
    placed in it all the same, from elevation 10 to 20; the placed
    volume is 2000, the pallet volume 1500. *)
Lemma packPalletWithLayers_over_headroom :
  let boxes := [mkBox "b" 10 10 10 2] in
  let pallet := mkPallet 10 15 10 in
  exists p q u,
    packPalletWithLayers 3 boxes pallet (buildLayerCandidates boxes pallet)
    = Ok ([p; q], QFin u)
    /\ pb_y p = 0 /\ pb_y q = 10 /\ pb_h q = 10
    /\ pal_h pallet < pb_y q + pb_h q
    /\ ~ (u <= 1)%Q
    /\ palletVolume pallet < usedVol [p; q].
Proof.
  cbv zeta. eexists. eexists. eexists. split; [vm_compute; reflexivity |].
  repeat (split; [reflexivity |]).
  split; [| vm_compute; reflexivity].
  unfold Qle. simpl. lia.
Qed.

(* ================================================================== *)
(** ** The composite score *)

Lemma rnd_exact (v : Z) : Z.abs v <= maxExact -> JsNum.rnd v = Fin v.
Proof.
  unfold JsNum.rnd, maxExact. intros H. cbv zeta.
  destruct (Z.leb_spec (Z.abs v) 9007199254740992); [reflexivity | lia].
Qed.

(** Rounding never takes a number below a double that it is not
    below. *)
Lemma rnd_atLeast (c v : Z) :
  0 <= c <= maxExact -> c <= v -> atLeast (JsNum.rnd v) c.
Proof.
  unfold maxExact. intros Hc Hv. unfold JsNum.rnd. cbv zeta.
  destruct (Z.leb_spec (Z.abs v) 9007199254740992) as [_ | G];
    [exact Hv |].
  assert (V : 9007199254740992 < v) by lia.
  rewrite (Z.abs_eq v) in * by lia.
  destruct (Z.ltb_spec v 0) as [? | _]; [lia |].
  set (e := Z.log2 v - 52).
  assert (P53 : 2 ^ 53 = 9007199254740992) by reflexivity.
  assert (L : 53 <= Z.log2 v).
  { rewrite <- (Z.log2_pow2 53) by lia. apply Z.log2_le_mono. lia. }
  assert (He : 1 <= e) by (unfold e; lia).
  destruct (Z.log2_spec v) as [Lo _]; [lia |].
  assert (Ep : 2 ^ Z.log2 v = 2 ^ 52 * 2 ^ e).
  { unfold e. rewrite <- Z.pow_add_r by lia. f_equal. lia. }
  assert (E2 : 2 <= 2 ^ e).
  { change 2 with (2 ^ 1) at 1. apply Z.pow_le_mono_r; lia. }
  assert (Q : 2 ^ 52 <= Z.shiftr v e).
  { rewrite Z.shiftr_div_pow2 by lia. apply Z.div_le_lower_bound; [lia |].
    rewrite Z.mul_comm, <- Ep. exact Lo. }
  set (q := Z.shiftr v e) in *.
  set (q' := if (Z.shiftl 1 (e - 1) <? v - Z.shiftl q e)
                || ((v - Z.shiftl q e =? Z.shiftl 1 (e - 1)) && Z.odd q)
             then q + 1 else q).
  assert (Q' : q <= q') by (unfold q'; destruct (_ || _); lia).
  destruct (Z.shiftl 1 1024 <=? Z.shiftl q' e); [exact I |].
  cbn [atLeast]. rewrite Z.shiftl_mul_pow2 by lia.
  assert (P52 : 2 ^ 52 = 4503599627370496) by reflexivity.
  rewrite P52 in Q. nia.
Qed.

Lemma atLeast_weaken (a : num) (c c' : Z) :
  atLeast a c -> c' <= c -> atLeast a c'.
Proof. destruct a; cbn; auto. lia. Qed.

Lemma abs_atLeast (a : num) : atLeast (JsNum.abs a) 0.
Proof. destruct a; cbn; auto. lia. Qed.

Lemma radd_atLeast (a b : num) (c1 c2 : Z) :
  atLeast a c1 -> atLeast b c2 -> 0 <= c1 -> 0 <= c2 ->
  c1 + c2 <= maxExact -> atLeast (JsNum.radd a b) (c1 + c2).
Proof.
  destruct a as [| u |], b as [| v |]; cbn; intros; try tauto.
  apply rnd_atLeast; lia.
Qed.

Lemma rmul_atLeast (a : num) (c k : Z) :
  atLeast a c -> 0 <= c -> 0 < k -> c * k <= maxExact ->
  atLeast (JsNum.rmul a k) (c * k).
Proof.
  destruct a as [| u |]; cbn; intros; try tauto.
  apply rnd_atLeast; nia.
Qed.

(** As long as the exact value of the weighted formula stays within
    [2^53], no operation of the score rounds, and the score is that
    value. *)
Lemma scoreOf_weighted (gapWidth gapDepth layerHeight : Z) (o : Z * Z * Z) :
  weightedScore layerHeight gapWidth gapDepth o <= maxExact ->
  scoreOf gapWidth (Fin gapDepth) layerHeight layerHeight o
  = Fin (weightedScore layerHeight gapWidth gapDepth o).
Proof.
  destruct o as [[bw bh] bd].
  unfold scoreOf, weightedScore, primaryPenalty, heightPenalty.
  intros B. cbn [JsNum.rsub].
  rewrite (rnd_exact (bw - gapWidth)), (rnd_exact (bd - gapDepth))
    by (destruct (bh <=? layerHeight); lia).
  destruct (Z.leb_spec bh layerHeight) as [L | G].
  - rewrite (rnd_exact (layerHeight - bh)) by lia.
    cbn [JsNum.abs JsNum.rmul JsNum.radd].
    rewrite (rnd_exact (Z.abs (layerHeight - bh) * 10000)),
      (rnd_exact (Z.abs (bw - gapWidth) * 100)) by lia.
    cbn [JsNum.radd]. rewrite rnd_exact by lia.
    cbn [JsNum.radd]. rewrite rnd_exact by lia. f_equal. lia.
  - rewrite (rnd_exact (bh - layerHeight)) by lia.
    cbn [JsNum.abs JsNum.rmul JsNum.radd].
    rewrite (rnd_exact (100000 + Z.abs (bh - layerHeight))) by lia.
    cbn [JsNum.rmul].
    rewrite (rnd_exact ((100000 + Z.abs (bh - layerHeight)) * 10000)),
      (rnd_exact (Z.abs (bw - gapWidth) * 100)) by lia.
    cbn [JsNum.radd]. rewrite rnd_exact by lia.
    cbn [JsNum.radd]. rewrite rnd_exact by lia. f_equal. lia.
Qed.

(** The sums of the score add magnitudes: the penalty and the score
    are never negative, and never [-Infinity]. *)
Lemma primaryPenalty_atLeast (layerHeight maxAvailableY bh : Z) :
  atLeast (primaryPenalty layerHeight maxAvailableY bh) 0.
Proof.
  unfold primaryPenalty. destruct (bh <=? maxAvailableY);
    [apply abs_atLeast |].
  apply atLeast_weaken with (c := 100000 + 0); [| lia].
  apply radd_atLeast; try (unfold maxExact; lia);
    [cbn; lia | apply abs_atLeast].
Qed.

Lemma scoreOf_atLeast (gapWidth : Z) (gapDepth : num)
  (layerHeight maxAvailableY : Z) (o : Z * Z * Z) :
  atLeast (scoreOf gapWidth gapDepth layerHeight maxAvailableY o) 0.
Proof.
  destruct o as [[bw bh] bd]. unfold scoreOf.
  change 0 with (0 * 10000 + 0 * 100 + 0).
  apply radd_atLeast; try (unfold maxExact; lia); [| apply abs_atLeast].
  apply radd_atLeast; try (unfold maxExact; lia);
    apply rmul_atLeast; try (unfold maxExact; lia);
    [apply primaryPenalty_atLeast | apply abs_atLeast].
Qed.

(** An orientation taller than the target layer height scores at
    least [10^9], rounded or not. *)
Lemma scoreOf_over_height (gapWidth : Z) (gapDepth : num)
  (layerHeight bw bh bd : Z) :
  layerHeight < bh ->
  atLeast (scoreOf gapWidth gapDepth layerHeight layerHeight (bw, bh, bd))
          1000000000.
Proof.
  intros G. unfold scoreOf, primaryPenalty.
  destruct (Z.leb_spec bh layerHeight) as [? | _]; [lia |].
  change 1000000000 with (100000 * 10000 + 0 * 100 + 0).
  apply radd_atLeast; try (unfold maxExact; lia); [| apply abs_atLeast].
  apply radd_atLeast; try (unfold maxExact; lia).
  - apply rmul_atLeast; try (unfold maxExact; lia).
    change 100000 with (100000 + 0) at 2.
    apply radd_atLeast; try (unfold maxExact; lia);
      [cbn; lia | apply abs_atLeast].
  - apply rmul_atLeast; try (unfold maxExact; lia). apply abs_atLeast.
Qed.

(** C3 (as the code has it). A candidate that fits the gap is scored
    [10000 * p + 100 * |width - gap width| + |depth - gap depth|],
    where [p] is [|height - target|] when the height fits within the
    target layer height and [100000 + |height - target|] when it
    exceeds it, as long as this value does not exceed [2^53]: this is
    the score recorded for a candidate on its own and the score of the
    candidate that the selection returns.  The value stays within
    [2^53] whenever the target, the gap's width and depth and the
    three sides of the orientation are within [10^11] in magnitude. *)
Theorem findBestBoxForGap_score (boxes : list Box)
  (gapWidth gapDepth layerHeight : Z) :
  (forall i o,
      fitsGap gapWidth (Fin gapDepth) o = true ->
      weightedScore layerHeight gapWidth gapDepth o <= maxExact ->
      considerOrient gapWidth (Fin gapDepth) layerHeight layerHeight i None o
      = Some (mkCand i o (Fin (weightedScore layerHeight gapWidth gapDepth o))))
  /\ (forall c,
        findBestBoxForGap boxes gapWidth (Fin gapDepth)
                          layerHeight layerHeight = Some c ->
        feasible boxes gapWidth (Fin gapDepth)
                 (cand_index c) (cand_orientation c)
        /\ (weightedScore layerHeight gapWidth gapDepth (cand_orientation c)
            <= maxExact ->
            cand_score c
            = Fin (weightedScore layerHeight gapWidth gapDepth
                                 (cand_orientation c))))
  /\ (forall bw bh bd,
        Z.abs layerHeight <= 10 ^ 11 -> Z.abs gapWidth <= 10 ^ 11 ->
        Z.abs gapDepth <= 10 ^ 11 ->
        Z.abs bw <= 10 ^ 11 -> Z.abs bh <= 10 ^ 11 -> Z.abs bd <= 10 ^ 11 ->
        weightedScore layerHeight gapWidth gapDepth (bw, bh, bd) <= maxExact
        /\ scoreOf gapWidth (Fin gapDepth) layerHeight layerHeight
                   (bw, bh, bd)
           = Fin (weightedScore layerHeight gapWidth gapDepth (bw, bh, bd))).
Proof.
  split; [| split].
  - intros i o F B. rewrite considerOrient_fits, F. cbv zeta.
    now rewrite scoreOf_weighted.
  - intros c E. destruct (findBest_some _ _ _ _ _ _ E) as [F [S _]].
    split; [exact F |]. intros B. now rewrite S, scoreOf_weighted.
  - intros bw bh bd Hl Hw Hd Bw Bh Bd.
    assert (P : 10 ^ 11 = 100000000000) by reflexivity. rewrite P in *.
    assert (B : weightedScore layerHeight gapWidth gapDepth (bw, bh, bd)
                <= maxExact).
    { unfold weightedScore, heightPenalty, maxExact.
      destruct (bh <=? layerHeight); lia. }
    split; [exact B | now apply scoreOf_weighted].
Qed.

Example findBestBoxForGap_score_witness :
  exists c,
    findBestBoxForGap [mkBox "A" 5 5 5 1] 5 (Fin 5) 10 10 = Some c
    /\ weightedScore 10 5 5 (cand_orientation c) <= maxExact
    /\ cand_score c = Fin 50000.
Proof.
  destruct (findBestBoxForGap_score [mkBox "A" 5 5 5 1] 5 5 10) as [_ [H _]].
  exists (mkCand 0 (5, 5, 5) (Fin 50000)).
  split; [vm_compute; reflexivity |].
  split; [vm_compute; discriminate |].
  destruct (H (mkCand 0 (5, 5, 5) (Fin 50000))) as [_ S];
    [vm_compute; reflexivity |].
  apply S. vm_compute. discriminate.
Defined.

(** Beyond [2^53] the score is a rounded value.  With a target height
    of 1 and a gap of 3 by 3, the orientation (3, 10^12, 2) has the
    exact value 10000000999990001; the code holds 10000000999990000
    for it, the score of the orientation (3, 10^12, 3), which then does
    not replace it. *)
Lemma scoreOf_rounds_beyond_maxExact :
  weightedScore 1 3 3 (3, 1000000000000, 2) = 10000000999990001
  /\ scoreOf 3 (Fin 3) 1 1 (3, 1000000000000, 2) = Fin 10000000999990000
  /\ scoreOf 3 (Fin 3) 1 1 (3, 1000000000000, 3) = Fin 10000000999990000
  /\ findBestBoxForGap
       [mkBox "A" 3 1000000000000 2 1; mkBox "B" 3 1000000000000 3 1]
       3 (Fin 3) 1 1
     = Some (mkCand 0 (3, 1000000000000, 2) (Fin 10000000999990000)).
Proof.
  repeat split; vm_compute; reflexivity.
Qed.

(** C3 as stated fails: a cube of side 5 that fills a gap of 5 by 5
    under a target height of 10 scores 50000, not 5. *)
Example findBestBoxForGap_not_claimed_score :
  exists c,
    findBestBoxForGap [mkBox "A" 5 5 5 1] 5 (Fin 5) 10 10 = Some c
    /\ cand_score c <> Fin (claimedScore 10 5 5 (cand_orientation c)).
Proof.
  eexists. split; [vm_compute; reflexivity |]. vm_compute. discriminate.
Qed.

(* ================================================================== *)
(** ** Which candidate a round commits *)










(** The hypothesis on the breakpoints to the right is needed.  On the
    profile [(0,5), (6,4), (8,7), (13,2), (15,0)] of a pallet 15 wide
    and 8 deep, box A (5,5,2) fits the first gap as it is (6 wide, 3
    deep left), yet the round commits it turned to (2,5,5) in the last
    gap: against the breakpoint at depth 7 further right the loop
    body measures a depth of 1 for the first three gaps. *)
Lemma scanGaps_passes_fitting_gap :
  let pallet := mkPallet 15 5 8 in
  let boxes := [mkBox "A" 5 5 2 1] in
  let nodes := [mkNode 0 (Fin 5); mkNode 6 (Fin 4); mkNode 8 (Fin 7);
                mkNode 13 (Fin 2); mkNode 15 (Fin 0)] in
  fitsGapAt boxes pallet nodes 0 0 (5, 5, 2)
  /\ ~ noHigherRight nodes 0
  /\ measuredDepthAt pallet nodes 0 = Fin 1
  /\ exists nodes',
       scanGaps boxes pallet 5 0 nodes
       = Ok (Some (nodes', mkPlaced "A" 2 5 5 1 13 0 (Fin 2) (2, 5, 5), 0%nat)).
Proof.
  cbv zeta. split; [| split; [| split]].
  - split; [simpl; lia |]. split; [vm_compute; reflexivity |].
    split; [vm_compute; reflexivity |].
    exists (mkBox "A" 5 5 2 1). split; [reflexivity |].
    split; [simpl; lia |]. split; [simpl; auto | vm_compute; reflexivity].
  - unfold noHigherRight. cbn. intros H.
    inversion H as [| ? ? _ H1]; subst. inversion H1 as [| ? ? _ H2]; subst.
    inversion H2 as [| ? ? H3 _]; subst. discriminate.
  - vm_compute. reflexivity.
  - eexists. vm_compute. reflexivity.
Qed.

(* ================================================================== *)
(** ** The profile invariants under a commit *)

(** C1 fails on the code.  The profile [(0,8), (10,5), (20,0)] of a
    pallet 20 wide satisfies the four invariants; the commit of the
    interval [10, 20) to the depth 8 returns [(10,8), (20,0)], whose
    first node is not at x = 0: [mergeNodes] gives the node it keeps
    the x of the node it drops.  The profile and the commit arise in
    the run of the layer packer on the boxes A (10,1,5) and twice
    B (10,1,3) in a pallet 20 wide and 8 deep. *)
Example skylineUpdate_loses_origin :
  let pallet := mkPallet 20 1 8 in
  let boxes0 := [mkBox "A" 10 1 5 1; mkBox "B" 10 1 3 2] in
  let nodes1 := [mkNode 0 (Fin 5); mkNode 20 (Fin 0)] in
  let nodes2 := [mkNode 0 (Fin 8); mkNode 10 (Fin 5); mkNode 20 (Fin 0)] in
  let nodes3 := [mkNode 10 (Fin 8); mkNode 20 (Fin 0)] in
  skylineInv 20 nodes2 = true
  /\ skylineUpdate nodes2 10 10 (Fin 8) = Ok nodes3
  /\ startsAtZero nodes3 = false
  /\ skylineInv 20 nodes3 = false
  /\ (exists pb1 pb2 pb3,
        scanGaps boxes0 pallet 1 0 (initialNodes pallet)
        = Ok (Some (nodes1, pb1, 0%nat))
        /\ scanGaps (decQty 0 boxes0) pallet 1 0 nodes1
           = Ok (Some (nodes2, pb2, 1%nat))
        /\ scanGaps (decQty 1 (decQty 0 boxes0)) pallet 1 0 nodes2
           = Ok (Some (nodes3, pb3, 1%nat))).
Proof.
  cbv zeta. repeat split; try (vm_compute; reflexivity).
  eexists. eexists. eexists. repeat split; vm_compute; reflexivity.
Qed.


(* ================================================================== *)
(** ** More on the skyline profile *)

Lemma mergeNodes_fixed (l : list Node) :
  noEqualNeighbours l = true -> mergeNodes l = l.
Proof.
  induction l as [| a l IH]; [reflexivity |].
  destruct l as [| b l]; [reflexivity |].
  cbn [noEqualNeighbours]. intros H. apply andb_true_iff in H.
  destruct H as [N H]. apply negb_true_iff in N.
  rewrite mergeNodes_cons2, N. f_equal. now apply IH.
Qed.

(** [mergeNodes] changes nothing exactly on the lists in which no two
    neighbours share their depth, and merging twice is merging once. *)
Theorem mergeNodes_idempotent (l : list Node) :
  mergeNodes (mergeNodes l) = mergeNodes l
  /\ (mergeNodes l = l <-> noEqualNeighbours l = true).
Proof.
  split.
  - apply mergeNodes_fixed, mergeNodes_noEqualNeighbours.
  - split; [| apply mergeNodes_fixed].
    intros E. rewrite <- E. apply mergeNodes_noEqualNeighbours.
Qed.

Lemma mergeNodes_length (l : list Node) :
  (length (mergeNodes l) <= length l)%nat.
Proof.
  induction l as [| a l IH]; [apply Nat.le_refl |].
  destruct l as [| b l]; [apply Nat.le_refl |].
  rewrite mergeNodes_cons2. destruct (JsNum.eqb (node_z a) (node_z b));
    cbn [length] in *; lia.
Qed.

(** [mergeNodes] invents no node: every node it returns is a node of
    its argument, with that node's x and z; it returns no more nodes
    than it got, none only for the empty list, and its last node is
    the last node of its argument. *)
Theorem mergeNodes_keeps_nodes (l : list Node) :
  incl (mergeNodes l) l
  /\ (length (mergeNodes l) <= length l)%nat
  /\ (mergeNodes l = [] <-> l = [])
  /\ lastOpt (mergeNodes l) = lastOpt l.
Proof.
  split; [apply mergeNodes_incl |]. split; [apply mergeNodes_length |].
  split; [| apply mergeNodes_last]. split.
  - destruct l as [| a l]; [reflexivity |]. intros E.
    now elim (mergeNodes_nonempty a l).
  - intros ->. reflexivity.
Qed.

Lemma app_nonempty_r {A : Type} (l l' : list A) : l' <> [] -> l ++ l' <> [].
Proof. intros N E. apply app_eq_nil in E. tauto. Qed.

(** [skylineUpdate] throws exactly on the empty profile; on any other
    profile, whatever the position, the width and the new depth, it
    returns a non-empty profile in which no two neighbours share their
    depth. *)
Theorem skylineUpdate_outcome (nodes : list Node) (x bw : Z) (newTop : num) :
  (skylineUpdate nodes x bw newTop = TypeError <-> nodes = [])
  /\ skylineUpdate nodes x bw newTop <> OutOfFuel
  /\ (forall nodes',
        skylineUpdate nodes x bw newTop = Ok nodes' ->
        nodes' <> [] /\ noEqualNeighbours nodes' = true).
Proof.
  unfold skylineUpdate. destruct (takeLeft x nodes) as [out0 rest0] eqn:T.
  destruct nodes as [| n nodes].
  - simpl. split; [tauto |]. split; [discriminate | intros ? [=]].
  - destruct (lastOpt_some (n :: nodes)) as [s ->]; [discriminate |].
    assert (P : putLeft out0 x newTop <> []).
    { unfold putLeft. destruct (lastOpt out0) as [l |];
        [destruct (negb (node_x l =? x)) |];
        apply app_nonempty_r; discriminate. }
    assert (M : forall pre, pre <> [] -> mergeNodes pre <> []).
    { intros [| a pre] N; [congruence | apply mergeNodes_nonempty]. }
    destruct (x + bw <? node_x s).
    + split; [split; discriminate |]. split; [discriminate |].
      intros nodes' [= <-]. split; [| apply mergeNodes_noEqualNeighbours].
      apply M. intros E. apply app_eq_nil in E. destruct E as [E _].
      destruct (negb (JsNum.eqb (zAfterOf (x + bw) (n :: nodes)) newTop));
        [apply app_eq_nil in E; destruct E as [E _] |]; contradiction.
    + split; [split; discriminate |]. split; [discriminate |].
      intros nodes' [= <-]. split; [| apply mergeNodes_noEqualNeighbours].
      apply M. apply app_nonempty_r. discriminate.
Qed.

(** A commit of a width that is not negative never touches the
    sentinel: on every profile, sorted or not, the last node of the
    result is the last node of the profile, x and z. *)
Theorem skylineUpdate_keeps_sentinel (nodes nodes' : list Node) (x bw : Z)
  (newTop : num) :
  0 <= bw ->
  skylineUpdate nodes x bw newTop = Ok nodes' ->
  lastOpt nodes' = lastOpt nodes.
Proof.
  intros Hb. unfold skylineUpdate.
  destruct (takeLeft x nodes) as [out0 rest0] eqn:T.
  apply takeLeft_spec in T. destruct T as [En Fo].
  destruct (lastOpt nodes) as [s |] eqn:L; [| discriminate].
  destruct (Z.ltb_spec (x + bw) (node_x s)) as [Lt | Ge].
  - intros [= <-]. rewrite mergeNodes_last.
    destruct (skipInside_suffix (x + bw) rest0) as [sk [Er Fs]].
    set (rest := skipInside (x + bw) rest0) in *.
    assert (N0 : rest0 <> []).
    { intros E. rewrite E, app_nil_r in En. subst out0.
      apply lastOpt_In in L. rewrite Forall_forall in Fo. apply Fo in L. lia. }
    assert (L0 : lastOpt rest0 = Some s).
    { rewrite <- L, En. symmetry. now apply lastOpt_app_r. }
    assert (N : rest <> []).
    { intros E. rewrite E, app_nil_r in Er. subst sk.
      apply lastOpt_In in L0. rewrite Forall_forall in Fs. apply Fs in L0. lia. }
    rewrite lastOpt_app_r by exact N.
    rewrite <- L0, Er. symmetry. now apply lastOpt_app_r.
  - intros [= <-]. rewrite mergeNodes_last, lastOpt_app. now destruct s.
Qed.

Example skylineUpdate_keeps_sentinel_witness :
  0 <= 10
  /\ skylineUpdate [mkNode 0 (Fin 8); mkNode 10 (Fin 5); mkNode 20 (Fin 0)]
       10 10 (Fin 8) = Ok [mkNode 10 (Fin 8); mkNode 20 (Fin 0)]
  /\ lastOpt [mkNode 10 (Fin 8); mkNode 20 (Fin 0)]
     = lastOpt [mkNode 0 (Fin 8); mkNode 10 (Fin 5); mkNode 20 (Fin 0)].
Proof.
  assert (E : skylineUpdate
                [mkNode 0 (Fin 8); mkNode 10 (Fin 5); mkNode 20 (Fin 0)]
                10 10 (Fin 8) = Ok [mkNode 10 (Fin 8); mkNode 20 (Fin 0)])
    by (vm_compute; reflexivity).
  split; [lia |]. split; [exact E |].
  apply (skylineUpdate_keeps_sentinel _ _ 10 10 (Fin 8)); [lia | exact E].
Defined.


(* ================================================================== *)
(** ** Placement search on the skyline *)





















(* ================================================================== *)
(** ** More on the selection of the best box *)

Lemma num_ltb_trans (a b c : num) :
  JsNum.ltb a b = true -> JsNum.ltb b c = true -> JsNum.ltb a c = true.
Proof.
  destruct a, b, c; cbn; intros H1 H2; try reflexivity; try discriminate.
  apply Z.ltb_lt in H1, H2. apply Z.ltb_lt. lia.
Qed.

Lemma num_ltb_le_trans (a b c : num) :
  JsNum.ltb a b = true -> JsNum.ltb c b = false -> JsNum.ltb a c = true.
Proof.
  destruct a, b, c; cbn; intros H1 H2; try reflexivity; try discriminate.
  apply Z.ltb_lt in H1. apply Z.ltb_ge in H2. apply Z.ltb_lt. lia.
Qed.

Section FirstBest.

Variables (gapWidth : Z) (gapDepth : num) (layerHeight maxAvailableY : Z).

(** The fold keeps the first of the best: what it visited before the
    candidate it holds scores more, what it visited after scores no
    less. *)
Lemma first_best_of_fold (l : list (nat * (Z * Z * Z))) :
  match fold_left (considerPair gapWidth gapDepth layerHeight maxAvailableY)
                  l None with
  | None => forall i o, In (i, o) l -> fitsGap gapWidth gapDepth o = false
  | Some c =>
      exists before after,
        l = before ++ (cand_index c, cand_orientation c) :: after
        /\ (forall i o,
              In (i, o) before -> fitsGap gapWidth gapDepth o = true ->
              JsNum.ltb (cand_score c)
                (scoreOf gapWidth gapDepth layerHeight maxAvailableY o)
              = true)
        /\ (forall i o,
              In (i, o) after -> fitsGap gapWidth gapDepth o = true ->
              JsNum.ltb
                (scoreOf gapWidth gapDepth layerHeight maxAvailableY o)
                (cand_score c) = false)
  end.
Proof.
  induction l as [| [j o] l IH] using rev_ind; [intros i o [] |].
  rewrite fold_left_app. cbn [fold_left]. unfold considerPair at 1.
  cbn [fst snd]. rewrite considerOrient_fits. cbv zeta.
  set (best := fold_left
                 (considerPair gapWidth gapDepth layerHeight maxAvailableY)
                 l None) in *.
  set (score := scoreOf gapWidth gapDepth layerHeight maxAvailableY) in *.
  destruct (fitsGap gapWidth gapDepth o) eqn:Fo.
  - destruct best as [b |] eqn:Eb.
    + destruct IH as [before [after [El [Hb Ha]]]].
      pose proof (best_of_fold gapWidth gapDepth layerHeight maxAvailableY l)
        as B. fold best in B. rewrite Eb in B.
      destruct B as [_ [Fb [Sb _]]]. fold score in Sb.
      destruct (JsNum.ltb (score o) (cand_score b)) eqn:Lt; cbn.
      * exists l, []. split; [reflexivity |]. split; [| intros i o' []].
        intros i o' I Fo'. rewrite El in I. apply in_app_or in I.
        destruct I as [I | [[= <- <-] | I]].
        -- eapply num_ltb_trans; [exact Lt | now apply (Hb i)].
        -- rewrite <- Sb. exact Lt.
        -- eapply num_ltb_le_trans; [exact Lt | now apply (Ha i)].
      * exists before, (after ++ [(j, o)]). rewrite El, <- app_assoc.
        split; [reflexivity |]. split; [exact Hb |].
        intros i o' I Fo'. apply in_app_or in I.
        destruct I as [I | [[= <- <-] | []]]; [now apply (Ha i) | exact Lt].
    + cbn. exists l, []. split; [reflexivity |]. split; [| intros i o' []].
      intros i o' I Fo'. rewrite (IH i o' I) in Fo'. discriminate.
  - destruct best as [b |].
    + destruct IH as [before [after [El [Hb Ha]]]].
      exists before, (after ++ [(j, o)]). rewrite El, <- app_assoc.
      split; [reflexivity |]. split; [exact Hb |].
      intros i o' I Fo'. apply in_app_or in I.
      destruct I as [I | [[= <- <-] | []]]; [now apply (Ha i) | congruence].
    + intros i o' I. apply in_app_or in I.
      destruct I as [I | [[= <- <-] | []]]; [now apply (IH i) | exact Fo].
Qed.

End FirstBest.

(** [findBestBoxForGap] returns [null] exactly when no box type with
    remaining quantity has an orientation that fits the gap.  Otherwise
    it returns the first of the lowest-scoring candidates in the order
    the loops visit them (box types in catalog order, each in its six
    orientations): every fitting candidate visited before it scores
    strictly more, every one visited after it scores no less. *)
Theorem findBestBoxForGap_first_best (boxes : list Box) (gapWidth : Z)
  (gapDepth : num) (layerHeight maxAvailableY : Z) :
  match findBestBoxForGap boxes gapWidth gapDepth layerHeight maxAvailableY
  with
  | None => forall i o, ~ feasible boxes gapWidth gapDepth i o
  | Some c =>
      feasible boxes gapWidth gapDepth (cand_index c) (cand_orientation c)
      /\ cand_score c
         = scoreOf gapWidth gapDepth layerHeight maxAvailableY
                   (cand_orientation c)
      /\ exists before after,
           candidatesOf boxes
           = before ++ (cand_index c, cand_orientation c) :: after
           /\ (forall i o,
                 In (i, o) before -> fitsGap gapWidth gapDepth o = true ->
                 JsNum.ltb (cand_score c)
                   (scoreOf gapWidth gapDepth layerHeight maxAvailableY o)
                 = true)
           /\ (forall i o,
                 In (i, o) after -> fitsGap gapWidth gapDepth o = true ->
                 JsNum.ltb
                   (scoreOf gapWidth gapDepth layerHeight maxAvailableY o)
                   (cand_score c) = false)
  end.
Proof.
  destruct (findBestBoxForGap boxes gapWidth gapDepth layerHeight
              maxAvailableY) as [c |] eqn:E.
  - destruct (findBest_some _ _ _ _ _ _ E) as [F [S _]].
    split; [exact F |]. split; [exact S |].
    rewrite findBest_as_fold in E.
    pose proof (first_best_of_fold gapWidth gapDepth layerHeight
                  maxAvailableY (candidatesOf boxes)) as H.
    rewrite E in H. exact H.
  - now apply findBest_none with (layerHeight := layerHeight)
                                 (maxAvailableY := maxAvailableY).
Qed.

(** While [10000 * layerHeight + 100 * gapWidth + gapDepth] stays
    within [10^9], on boxes with positive dimensions an orientation
    that fits within the layer height is always preferred to one that
    exceeds it: if some candidate of the gap fits the layer height, so
    does the candidate returned. *)
Theorem findBestBoxForGap_prefers_fitting (boxes : list Box)
  (gapWidth gapDepth layerHeight : Z) (c : Cand) (i : nat) (o : Z * Z * Z) :
  Forall positiveDims boxes ->
  10000 * layerHeight + 100 * gapWidth + gapDepth <= 1000000000 ->
  findBestBoxForGap boxes gapWidth (Fin gapDepth) layerHeight layerHeight
  = Some c ->
  feasible boxes gapWidth (Fin gapDepth) i o ->
  orientHeight o <= layerHeight ->
  orientHeight (cand_orientation c) <= layerHeight.
Proof.
  intros Pb Bound E F Ho.
  destruct (findBest_some _ _ _ _ _ _ E) as [_ [S M]].
  specialize (M i o F). rewrite S in M.
  destruct F as [box [Nb [_ [Io Fo]]]].
  destruct o as [[bw bh] bd].
  assert (Pbox : positiveDims box).
  { rewrite Forall_forall in Pb. apply Pb. eapply nth_error_In; eassumption. }
  destruct (orients_positive _ _ _ _ Pbox Io) as [Pw [Ph Pd]].
  unfold fitsGap in Fo. apply andb_true_iff in Fo. destruct Fo as [Fw Fd].
  apply negb_true_iff in Fw, Fd. unfold JsNum.gtb in Fd. cbn in Fd.
  apply Z.ltb_ge in Fd.
  assert (Hw : bw <= gapWidth)
    by (destruct (Z.gtb_spec bw gapWidth); [discriminate | lia]).
  unfold orientHeight in *. cbn [fst snd] in Ho.
  assert (W : weightedScore layerHeight gapWidth gapDepth (bw, bh, bd)
              < 1000000000).
  { unfold weightedScore, heightPenalty.
    destruct (Z.leb_spec bh layerHeight); lia. }
  rewrite scoreOf_weighted in M by (unfold maxExact; lia).
  destruct (cand_orientation c) as [[cw ch] cd]. cbn [fst snd].
  destruct (Z.le_gt_cases ch layerHeight) as [L | G]; [exact L |].
  pose proof (scoreOf_over_height gapWidth (Fin gapDepth) layerHeight
                cw ch cd G) as A.
  destruct (scoreOf gapWidth (Fin gapDepth) layerHeight layerHeight
              (cw, ch, cd)) as [| v |]; cbn [atLeast JsNum.ltb] in A, M.
  - contradiction.
  - apply Z.ltb_ge in M. lia.
  - discriminate.
Qed.

Example findBestBoxForGap_prefers_fitting_witness :
  Forall positiveDims [mkBox "T" 5 20 5 1; mkBox "S" 4 10 4 1]
  /\ 10000 * 10 + 100 * 5 + 5 <= 1000000000
  /\ findBestBoxForGap [mkBox "T" 5 20 5 1; mkBox "S" 4 10 4 1] 5 (Fin 5) 10 10
     = Some (mkCand 1 (4, 10, 4) (Fin 101))
  /\ orientHeight (4, 10, 4) <= 10.
Proof.
  assert (P : Forall positiveDims [mkBox "T" 5 20 5 1; mkBox "S" 4 10 4 1])
    by (repeat constructor; simpl; lia).
  assert (E : findBestBoxForGap [mkBox "T" 5 20 5 1; mkBox "S" 4 10 4 1]
                5 (Fin 5) 10 10 = Some (mkCand 1 (4, 10, 4) (Fin 101)))
    by (vm_compute; reflexivity).
  assert (B : 10000 * 10 + 100 * 5 + 5 <= 1000000000) by lia.
  assert (F : feasible [mkBox "T" 5 20 5 1; mkBox "S" 4 10 4 1] 5 (Fin 5)
                1 (4, 10, 4)).
  { exists (mkBox "S" 4 10 4 1). split; [reflexivity |].
    split; [simpl; lia |]. split; [simpl; auto | vm_compute; reflexivity]. }
  assert (H : orientHeight (4, 10, 4) <= 10) by (vm_compute; discriminate).
  split; [exact P |]. split; [exact B |]. split; [exact E |].
  exact (findBestBoxForGap_prefers_fitting _ 5 5 10
           (mkCand 1 (4, 10, 4) (Fin 101)) 1%nat (4, 10, 4) P B E F H).
Defined.

(* ================================================================== *)
(** ** More on the layer packer *)

Lemma admittedAt_initial (boxes : list Box) (pallet : Pallet) (i j : nat)
  (o : Z * Z * Z) :
  admittedAt boxes pallet (initialNodes pallet) i j o
  <-> i = 0%nat /\ 0 < pal_w pallet /\ 0 < pal_d pallet
      /\ feasible boxes (pal_w pallet) (Fin (pal_d pallet)) j o.
Proof.
  unfold admittedAt, initialNodes. cbn [length Nat.sub]. split.
  - intros [Li H]. assert (i = 0%nat) by lia. subst i.
    unfold gapWidthAt, measuredDepthAt, maxZ in H. cbn in H.
    rewrite !Z.sub_0_r in H. destruct H as [Hw [Hd F]].
    unfold JsNum.leb in Hd. cbn in Hd. apply orb_false_iff in Hd.
    destruct Hd as [Hd He]. apply Z.ltb_ge in Hd. apply Z.eqb_neq in He.
    repeat split; auto; lia.
  - intros [-> [Hw [Hd F]]].
    unfold gapWidthAt, measuredDepthAt, maxZ. cbn. rewrite !Z.sub_0_r.
    split; [lia |]. split; [exact Hw |]. split; [| exact F].
    unfold JsNum.leb. cbn. apply orb_false_iff.
    split; [apply Z.ltb_ge; lia | apply Z.eqb_neq; lia].
Qed.












(* ================================================================== *)
(** ** More on the pallet packer *)



Lemma quotGtb_zero_volume (V : Z) : quotGtb (jsDiv 0 V) (QFin 0%Q) = false.
Proof.
  destruct V as [| v | v]; reflexivity.
Qed.

Lemma packLayerSkyline_nothing_fits (fuel : nat) (boxes : list Box)
  (pallet : Pallet) (layerHeight yBase : Z) :
  (forall j o, ~ feasible boxes (pal_w pallet) (Fin (pal_d pallet)) j o) ->
  packLayerSkyline (S fuel) boxes pallet layerHeight yBase = Ok ([], boxes).
Proof.
  intros N. unfold packLayerSkyline. cbn [packLoop].
  destruct (scanGaps_spec boxes pallet layerHeight yBase (initialNodes pallet))
    as [[R _] | [g [cand [box [n' [_ [[_ [_ [F _]]] _]]]]]]].
  - now rewrite R.
  - apply admittedAt_initial in F. destruct F as [_ [_ [_ F]]].
    elim (N _ _ F).
Qed.

(** When no box type with remaining quantity has an orientation that
    fits the pallet's cross-section - the catalog is empty, out of
    stock, or every box is too large - the pallet packer returns the
    empty placement list and the utilization 0, whatever the pallet and
    the layer candidates. *)
Theorem packPalletWithLayers_nothing_fits (fuel : nat) (boxes : list Box)
  (pallet : Pallet) (layerCandidates : list LayerCandidate) :
  (forall j o, ~ feasible boxes (pal_w pallet) (Fin (pal_d pallet)) j o) ->
  packPalletWithLayers (S fuel) boxes pallet layerCandidates
  = Ok ([], QFin 0%Q).
Proof.
  intros N. unfold packPalletWithLayers.
  induction layerCandidates as [| c cands IH]; [reflexivity |].
  cbn [tryCandidates stackLoop].
  assert (E : stackStep (S fuel) pallet (mkStack boxes [] 0 (lc_height c))
              = Ok (inl [])).
  { unfold stackStep. cbn [currentY placedAll remainingBoxes currentLayerHeight].
    destruct (negb (0 <? pal_h pallet)); [reflexivity |].
    match goal with |- context [if ?t then Ok _ else _] => destruct t end;
      [reflexivity |].
    now rewrite packLayerSkyline_nothing_fits. }
  rewrite E. change (usedVol []) with 0.
  rewrite quotGtb_zero_volume. exact IH.
Qed.

Example packPalletWithLayers_nothing_fits_witness :
  (forall j o,
      ~ feasible [mkBox "A" 20 10 15 0; mkBox "B" 15 15 15 0]
          (pal_w (mkPallet 84 96 104)) (Fin (pal_d (mkPallet 84 96 104))) j o)
  /\ packPalletWithLayers 1 [mkBox "A" 20 10 15 0; mkBox "B" 15 15 15 0]
       (mkPallet 84 96 104) [mkLayer 10 0; mkLayer 15 5]
     = Ok ([], QFin 0%Q).
Proof.
  assert (N : forall j o,
             ~ feasible [mkBox "A" 20 10 15 0; mkBox "B" 15 15 15 0]
                 (pal_w (mkPallet 84 96 104))
                 (Fin (pal_d (mkPallet 84 96 104))) j o).
  { intros j o [box [Nb [Q _]]].
    destruct j as [| [| j]]; cbn in Nb;
      [inversion Nb; subst; cbn in Q; lia
      | inversion Nb; subst; cbn in Q; lia
      | destruct j; discriminate]. }
  split; [exact N |].
  exact (packPalletWithLayers_nothing_fits 0 _ _ _ N).
Defined.




Lemma packPallet_from_stack (fuel : nat) (boxes : list Box) (pallet : Pallet)
  (layerCandidates : list LayerCandidate) (Q : list PlacedBox -> Prop) :
  Q [] ->
  (forall c placed,
      stackResult fuel boxes pallet (lc_height c) = Ok placed -> Q placed) ->
  (totalQty boxes < fuel)%nat ->
  exists placed u,
    packPalletWithLayers fuel boxes pallet layerCandidates = Ok (placed, u)
    /\ Q placed.
Proof.
  intros Q0 Qs L. unfold packPalletWithLayers.
  apply (tryCandidates_spec fuel boxes pallet (fun placed _ => Q placed));
    [| exact L | exact Q0].
  intros c bp bu placed _ E _. exact (Qs c placed E).
Qed.















(* ================================================================== *)
(** ** More on the layer height planner *)

Lemma minAbsDiff_nonneg (b : Box) (height : Z) : 0 <= minAbsDiff b height.
Proof. unfold minAbsDiff. lia. Qed.

Lemma minAbsDiff_zero (b : Box) (height : Z) :
  minAbsDiff b height = 0 <-> In height (dimsOf b).
Proof.
  unfold minAbsDiff, dimsOf. cbn [In]. split.
  - intros E.
    assert (box_w b = height \/ box_h b = height \/ box_d b = height) by lia.
    tauto.
  - intros [E | [E | [E | []]]]; lia.
Qed.

Lemma specScore_nonneg (boxes : list Box) (height : Z) :
  0 <= specScore boxes height.
Proof.
  induction boxes as [| b l IH]; cbn; [lia |].
  fold (specScore l height). pose proof (minAbsDiff_nonneg b height). lia.
Qed.

Lemma specScore_zero (boxes : list Box) (height : Z) :
  specScore boxes height = 0
  <-> Forall (fun b => In height (dimsOf b)) boxes.
Proof.
  induction boxes as [| b l IH]; cbn.
  - split; [constructor | reflexivity].
  - fold (specScore l height).
    pose proof (minAbsDiff_nonneg b height).
    pose proof (specScore_nonneg l height). split.
    + intros E. constructor; [apply minAbsDiff_zero; lia | apply IH; lia].
    + intros F. inversion F as [| ? ? Hb Hl]; subst.
      apply minAbsDiff_zero in Hb. apply IH in Hl. lia.
Qed.

(** The score of a layer candidate is never negative, and it is 0
    exactly when every box type has the candidate's height among its
    three dimensions; the first candidate returned has the least
    score. *)
Theorem buildLayerCandidates_scores (boxes : list Box) (pallet : Pallet) :
  Forall (fun c =>
            0 <= lc_evalScore c
            /\ (lc_evalScore c = 0
                <-> Forall (fun b => In (lc_height c) (dimsOf b)) boxes))
         (buildLayerCandidates boxes pallet)
  /\ match buildLayerCandidates boxes pallet with
     | [] => True
     | c :: rest => Forall (fun c' => lc_evalScore c <= lc_evalScore c') rest
     end.
Proof.
  unfold buildLayerCandidates. rewrite heightsOf_expected. split.
  - apply (Permutation_Forall (sortCandidates_perm _)).
    unfold expectedCandidates. apply Forall_forall. intros c Hc.
    apply in_map_iff in Hc. destruct Hc as [h [<- _]]. cbn.
    split; [apply specScore_nonneg | apply specScore_zero].
  - pose proof (sortCandidates_sorted (expectedCandidates boxes pallet)) as S.
    destruct (sortCandidates (expectedCandidates boxes pallet)); [exact I |].
    inversion S; subst. assumption.
Qed.

Lemma firstOccurrences_length (l : list Z) :
  (length (firstOccurrences l) <= length l)%nat.
Proof.
  induction l as [| a l IH]; cbn; [lia |].
  pose proof (filter_length_le (fun b => negb (b =? a)) (firstOccurrences l)).
  lia.
Qed.

Lemma allDims_length (boxes : list Box) :
  length (allDims boxes) = (3 * length boxes)%nat.
Proof.
  unfold allDims. induction boxes as [| b l IH]; cbn in *; lia.
Qed.

(** The planner returns at most three candidates per box type, and it
    returns none exactly when every dimension of every box type exceeds
    the pallet height. *)
Theorem buildLayerCandidates_size (boxes : list Box) (pallet : Pallet) :
  (length (buildLayerCandidates boxes pallet) <= 3 * length boxes)%nat
  /\ (buildLayerCandidates boxes pallet = []
      <-> Forall (fun b => Forall (fun v => pal_h pallet < v) (dimsOf b))
                 boxes).
Proof.
  unfold buildLayerCandidates. rewrite heightsOf_expected.
  pose proof (sortCandidates_perm (expectedCandidates boxes pallet)) as P.
  set (dims := filter (fun v => v <=? pal_h pallet) (allDims boxes)).
  assert (Le : length (expectedCandidates boxes pallet)
               = length (firstOccurrences dims)).
  { unfold expectedCandidates. now rewrite length_map. }
  split.
  - rewrite <- (Permutation_length P), Le.
    pose proof (firstOccurrences_length dims).
    pose proof (filter_length_le (fun v => v <=? pal_h pallet) (allDims boxes)).
    fold dims in H0. rewrite allDims_length in H0. lia.
  - assert (E : sortCandidates (expectedCandidates boxes pallet) = []
                <-> dims = []).
    { split; intros E.
      - rewrite E in P. apply Permutation_sym, Permutation_nil in P.
        rewrite P in Le. destruct dims; [reflexivity | discriminate].
      - unfold expectedCandidates. fold dims. rewrite E. reflexivity. }
    rewrite E. unfold dims, allDims. clear.
    induction boxes as [| b l IH].
    + split; [constructor | reflexivity].
    + cbn [flat_map]. rewrite filter_app. split.
      * intros X. apply app_eq_nil in X. destruct X as [Xb Xl].
        constructor; [| now apply IH].
        apply Forall_forall. intros v Iv.
        destruct (Z.ltb_spec (pal_h pallet) v) as [Lt | Ge]; [exact Lt |].
        assert (In v (filter (fun v => v <=? pal_h pallet) (dimsOf b))).
        { apply filter_In. split; [exact Iv | now apply Z.leb_le]. }
        rewrite Xb in H. destruct H.
      * intros F. inversion F as [| ? ? Hb Hl]; subst.
        apply IH in Hl. rewrite Hl, app_nil_r.
        rewrite Forall_forall in Hb.
        destruct (filter (fun v => v <=? pal_h pallet) (dimsOf b))
          as [| v r] eqn:Fb; [reflexivity |].
        assert (Iv : In v (filter (fun v => v <=? pal_h pallet) (dimsOf b)))
          by (rewrite Fb; now left).
        apply filter_In in Iv. destruct Iv as [Iv Lv].
        apply Z.leb_le in Lv. specialize (Hb v Iv). lia.
Qed.

Lemma specScore_dims (boxes boxes' : list Box) (height : Z) :
  map dimsOf boxes = map dimsOf boxes' ->
  specScore boxes height = specScore boxes' height.
Proof.
  revert boxes'. induction boxes as [| b l IH]; intros [| b' l'] E;
    try discriminate; [reflexivity |].
  cbn in E. inversion E as [[Ew Eh Ed El]]. cbn.
  fold (specScore l height). fold (specScore l' height).
  rewrite (IH l' El). unfold minAbsDiff. now rewrite Ew, Eh, Ed.
Qed.

(** The planner reads nothing but the three dimensions of each box type
    and the pallet height: two catalogs with the same dimensions, entry
    by entry, and two pallets of the same height give the same
    candidates, whatever the ids, the quantities and the pallets' width
    and depth. *)
Theorem buildLayerCandidates_dims_only (boxes boxes' : list Box)
  (pallet pallet' : Pallet) :
  map dimsOf boxes = map dimsOf boxes' -> pal_h pallet = pal_h pallet' ->
  buildLayerCandidates boxes pallet = buildLayerCandidates boxes' pallet'.
Proof.
  intros E H. unfold buildLayerCandidates. rewrite !heightsOf_expected.
  unfold expectedCandidates, allDims. rewrite !flat_map_concat_map, E, H.
  f_equal. apply map_ext. intros h. f_equal. now apply specScore_dims.
Qed.

Example buildLayerCandidates_dims_only_witness :
  buildLayerCandidates [mkBox "A" 20 10 15 10; mkBox "B" 15 15 15 5]
    (mkPallet 84 96 104)
  = buildLayerCandidates [mkBox "x" 20 10 15 0; mkBox "x" 15 15 15 (-1)]
      (mkPallet 1 96 2).
Proof.
  apply buildLayerCandidates_dims_only; reflexivity.
Defined.

(* ================================================================== *)
(** ** More on the orientation enumerator *)

Lemma getPalletOrientations_In (p q : Pallet) :
  In q (getPalletOrientations p)
  <-> In (pal_w q, pal_h q, pal_d q) (dimsOfPallet p).
Proof.
  unfold getPalletOrientations. change (@nil string) with (map keyOf []).
  rewrite filterStep_fold. cbn [app].
  destruct (dedupFrom_sound (dimsOfPallet p) []) as [_ M].
  rewrite in_map_iff. split.
  - intros [[[a b] c] [<- It]]. cbn. apply M in It. tauto.
  - intros It. exists (pal_w q, pal_h q, pal_d q). split.
    + now destruct q.
    + apply M. split; [exact It | intros []].
Qed.

(** The orientations returned for a pallet start with the pallet
    itself; each of them has the pallet's three dimensions in some
    order, hence the same volume; and taking the orientations of any
    of them gives the same set of pallets again. *)
Theorem getPalletOrientations_closed (pallet : Pallet) :
  hd_error (getPalletOrientations pallet) = Some pallet
  /\ Forall (fun q =>
               Permutation [pal_w q; pal_h q; pal_d q]
                           [pal_w pallet; pal_h pallet; pal_d pallet]
               /\ palletVolume q = palletVolume pallet
               /\ forall r, In r (getPalletOrientations q)
                            <-> In r (getPalletOrientations pallet))
            (getPalletOrientations pallet).
Proof.
  split.
  - unfold getPalletOrientations. change (@nil string) with (map keyOf []).
    rewrite filterStep_fold. destruct pallet as [w h d]. reflexivity.
  - apply Forall_forall. intros q Iq. apply getPalletOrientations_In in Iq.
    destruct pallet as [w h d], q as [w' h' d'].
    unfold dimsOfPallet in Iq. cbn [pal_w pal_h pal_d In] in Iq |- *.
    assert (C : (w', h', d') = (w, h, d) \/ (w', h', d') = (w, d, h)
                \/ (w', h', d') = (h, w, d) \/ (w', h', d') = (h, d, w)
                \/ (w', h', d') = (d, w, h) \/ (w', h', d') = (d, h, w))
      by (clear - Iq; intuition congruence).
    clear Iq.
    destruct C as [C | [C | [C | [C | [C | C]]]]]; inversion C; subst;
      (split; [| split;
                 [unfold palletVolume; cbn [pal_w pal_h pal_d]; ring
                 | intros r; rewrite !getPalletOrientations_In;
                   unfold dimsOfPallet; cbn [pal_w pal_h pal_d In]; tauto]]).
    + apply Permutation_refl.
    + apply perm_skip, perm_swap.
    + apply perm_swap.
    + eapply perm_trans; [apply perm_skip, perm_swap | apply perm_swap].
    + eapply perm_trans; [apply perm_swap | apply perm_skip, perm_swap].
    + eapply perm_trans; [apply perm_swap |].
      eapply perm_trans; [apply perm_skip, perm_swap | apply perm_swap].
Qed.

(* ================================================================== *)
(** ** The gap-based box choice of [layers.ts] *)





(* ================================================================== *)
(** ** The search over the pallet orientations *)

Lemma quotGtb_irrefl (a : quot) : quotGtb a a = false.
Proof.
  destruct a; cbn; try reflexivity.
  apply negb_false_iff, Qle_bool_iff, Qle_refl.
Qed.

(** [c <= b < a] leaves no room for [c > a]. *)
Lemma quotGtb_chain (a b c : quot) :
  quotGtb a b = true -> quotGtb c b = false -> quotGtb c a = false.
Proof.
  destruct a as [| | p |], b as [| | q |], c as [| | r |]; cbn;
    intros H1 H2; try reflexivity; try discriminate.
  apply negb_true_iff in H1. apply negb_false_iff in H2.
  apply negb_false_iff. apply Qle_bool_iff in H2. apply Qle_bool_iff.
  eapply Qle_trans; [exact H2 |]. apply Qlt_le_weak, Qnot_le_lt.
  intros X. apply Qle_bool_iff in X. congruence.
Qed.

Lemma packOrientation_total (fuel : nat) (boxes : list Box) (o : Pallet) :
  (totalQty boxes < fuel)%nat ->
  exists placed u, packOrientation fuel boxes o = Ok (placed, u).
Proof.
  intros L. unfold packOrientation.
  destruct (packPallet_from_stack fuel boxes o (buildLayerCandidates boxes o)
              (fun _ => True) I (fun _ _ _ => I) L) as [placed [u [E _]]].
  exists placed, u. exact E.
Qed.

Lemma tryOrientations_best (fuel : nat) (boxes : list Box) :
  (totalQty boxes < fuel)%nat ->
  forall os bu bp,
    exists u placed,
      Main.tryOrientations fuel boxes os (bu, bp) = Ok (u, placed)
      /\ ((u, placed) = (bu, bp)
          \/ exists o, In o os
                       /\ packOrientation fuel boxes o = Ok (placed, u))
      /\ (forall c, quotGtb c bu = false -> quotGtb c u = false)
      /\ forall o pl v,
           In o os -> packOrientation fuel boxes o = Ok (pl, v) ->
           quotGtb v u = false.
Proof.
  intros L. induction os as [| o os IH]; intros bu bp.
  - exists bu, bp. split; [reflexivity |]. split; [now left |].
    split; [auto | intros ? ? ? []].
  - cbn [Main.tryOrientations]. unfold Main.tryOrientation.
    destruct (packOrientation_total fuel boxes o L) as [pl [v E]].
    unfold packOrientation in E. rewrite E. cbn [fst].
    destruct (quotGtb v bu) eqn:G.
    + destruct (IH v pl) as [u [placed [Et [Or [Mono All]]]]].
      exists u, placed. split; [exact Et |]. split; [| split].
      * right. destruct Or as [Or | [o' [Io Eo]]].
        -- inversion Or; subst. exists o. split; [now left | exact E].
        -- exists o'. split; [now right | exact Eo].
      * intros c Hc. apply Mono. eapply quotGtb_chain; eassumption.
      * intros o' pl' v' [<- | Io] Eo.
        -- unfold packOrientation in Eo. rewrite E in Eo.
           inversion Eo; subst. apply Mono, quotGtb_irrefl.
        -- eapply All; eassumption.
    + destruct (IH bu bp) as [u [placed [Et [Or [Mono All]]]]].
      exists u, placed. split; [exact Et |]. split; [| split].
      * destruct Or as [Or | [o' [Io Eo]]]; [now left |].
        right. exists o'. split; [now right | exact Eo].
      * exact Mono.
      * intros o' pl' v' [<- | Io] Eo.
        -- unfold packOrientation in Eo. rewrite E in Eo.
           inversion Eo; subst. now apply Mono.
        -- eapply All; eassumption.
Qed.

(** The script keeps the best orientation: the solution left at the
    end of its loop is the initial one (utilization 0, nothing placed)
    or the result of the pallet packer on one of the orientations of
    the pallet, with the layer candidates built for that orientation;
    its utilization is not below 0, and on no orientation does the
    pallet packer reach a greater utilization. *)
Theorem searchOrientations_keeps_best (fuel : nat) (pallet : Pallet)
  (boxes : list Box) :
  (totalQty boxes < fuel)%nat ->
  exists u placed,
    Main.searchOrientations fuel pallet boxes = Ok (u, placed)
    /\ ((u, placed) = (QFin 0%Q, [])
        \/ exists o, In o (getPalletOrientations pallet)
                     /\ packOrientation fuel boxes o = Ok (placed, u))
    /\ quotGtb (QFin 0%Q) u = false
    /\ forall o pl v,
         In o (getPalletOrientations pallet) ->
         packOrientation fuel boxes o = Ok (pl, v) ->
         quotGtb v u = false.
Proof.
  intros L. unfold Main.searchOrientations.
  destruct (tryOrientations_best fuel boxes L (getPalletOrientations pallet)
              (QFin 0%Q) []) as [u [placed [E [Or [Mono All]]]]].
  exists u, placed. split; [exact E |]. split; [exact Or |].
  split; [apply Mono, quotGtb_irrefl | exact All].
Qed.

Example searchOrientations_keeps_best_witness :
  (totalQty [mkBox "b" 5 5 5 2] < 3)%nat
  /\ exists u placed,
      Main.searchOrientations 3 (mkPallet 5 20 5) [mkBox "b" 5 5 5 2]
      = Ok (u, placed)
      /\ forall o pl v,
           In o (getPalletOrientations (mkPallet 5 20 5)) ->
           packOrientation 3 [mkBox "b" 5 5 5 2] o = Ok (pl, v) ->
           quotGtb v u = false.
Proof.
  assert (L : (totalQty [mkBox "b" 5 5 5 2] < 3)%nat) by (vm_compute; lia).
  split; [exact L |].
  destruct (searchOrientations_keeps_best 3 (mkPallet 5 20 5)
              [mkBox "b" 5 5 5 2] L) as [u [placed [E [_ [_ All]]]]].
  exists u, placed. split; [exact E | exact All].
Defined.
